(** * FlexXAI leaderboard: ingestion, merge and weekly scoring

    A shallow embedding of the pipeline of [src/leaderboard-boosted.ts]
    (the Telegram bot variant with local storage, lines 325-945):
    [fetchTwitterMentions], the merge step of [fetchAllMentionsHistorical],
    [DataStorage.getWeeklyTweets], [calculateUserScore], [scoreAndStore], the
    fallback ranking of [generateSimpleLeaderboard] and the values behind the
    replies of the bot commands.

    Conventions of the embedding.
    - A JavaScript [number] is a value of a type [num] with the operations
      of the class [JSNumber].  The numbers of the program are IEEE binary64
      ([PrimFloat.float]): the statements about scores and their order are
      proved for that instance, from the specification of the primitive
      operations in the standard library ([FloatAxioms]).  The instance of
      exact rationals [Q] serves the statements in which no rounding is at
      stake (which records are listed, counts, engagement counts, which are
      integers) and gives the exact value of a double.
    - [created_at] holds the epoch milliseconds [new Date(created_at).getTime()]
      of the ISO string kept by the program; the other timestamps ([lastFetch],
      the clock readings) are epoch milliseconds too.
    - The JSON file of [DataStorage] is a [Disk]: [None] when the file is
      absent or unreadable, otherwise the parsed document.
    - An exception is the [None] of an [option]. *)

From Stdlib Require Import QArith Lqa PrimFloat SpecFloat FloatOps FloatAxioms Ascii.
From stdpp Require Import gmap strings list sorting.

Local Open Scope string_scope.
Local Open Scope list_scope.

(** ** JavaScript numbers *)

Class JSNumber (num : Type) := {
  nlit : Q -> num;            (* a numeric literal, or an integer such as a length *)
  nadd : num -> num -> num;
  nsub : num -> num -> num;
  nmul : num -> num -> num;
  ndiv : num -> num -> num;
  nlt : num -> num -> bool
}.

Declare Scope num_scope.
Delimit Scope num_scope with num.
Infix "+" := nadd : num_scope.
Infix "-" := nsub : num_scope.
Infix "*" := nmul : num_scope.
Infix "/" := ndiv : num_scope.
Notation "a <? b" := (nlt a b) : num_scope.
Notation "a >? b" := (nlt b a) : num_scope.

(** Exact rationals.  They are not the numbers of the program: they serve
    where every number is an integer count, on which binary64 arithmetic is
    exact, and as the values of doubles ([floatValue]).  What is stated of
    scores and of their order is stated over binary64, below. *)
Definition Qltb (a b : Q) : bool := negb (Qle_bool b a).

#[export] Instance Q_number : JSNumber Q := {|
  nlit := fun q => q;
  nadd := Qplus; nsub := Qminus; nmul := Qmult; ndiv := Qdiv;
  nlt := Qltb
|}.

(** binary64, the numbers of the program: an integer below 2^53 is built
    exactly from its binary digits, and a literal [n/d] is the correctly
    rounded quotient, which is the double a decimal literal denotes when [n]
    and [d] are exact. *)
Fixpoint float_of_positive (p : positive) : float :=
  match p with
  | xH => 1%float
  | xO p' => PrimFloat.mul 2%float (float_of_positive p')
  | xI p' => PrimFloat.add (PrimFloat.mul 2%float (float_of_positive p')) 1%float
  end.

Definition float_of_Z (z : Z) : float :=
  match z with
  | Z0 => 0%float
  | Zpos p => float_of_positive p
  | Zneg p => PrimFloat.opp (float_of_positive p)
  end.

Definition float_of_Q (q : Q) : float :=
  PrimFloat.div (float_of_Z (Qnum q)) (float_of_positive (Qden q)).

#[export] Instance float_number : JSNumber float := {|
  nlit := float_of_Q;
  nadd := PrimFloat.add; nsub := PrimFloat.sub;
  nmul := PrimFloat.mul; ndiv := PrimFloat.div;
  nlt := PrimFloat.ltb
|}.

(** ** Data model (interfaces [Tweet], [UserStats], [LeaderboardData],
    [StorageData]) *)

Record Tweet {num : Type} := mkTweet {
  id : string;
  username : string;
  follower_count : num;
  created_at : Z;
  likes : num;
  retweets : num;
  text : string;
  url : string
}.
Arguments Tweet : clear implicits.
Arguments mkTweet {num}.

Record UserStats {num : Type} := mkUserStats {
  stats_username : string;
  totalScore : num;
  tweetCount : nat;
  avgLikes : num;
  avgRetweets : num;
  topTweet : Tweet num;
  lastActive : Z
}.
Arguments UserStats : clear implicits.
Arguments mkUserStats {num}.

Record LeaderboardData {num : Type} := mkLeaderboardData {
  week : string;
  users : list (UserStats num);
  totalTweets : nat;
  mostViralTweet : Tweet num
}.
Arguments LeaderboardData : clear implicits.
Arguments mkLeaderboardData {num}.

Record StorageData {num : Type} := mkStorageData {
  tweets : list (Tweet num);
  lastFetch : Z;
  leaderboards : list (LeaderboardData num)
}.
Arguments StorageData : clear implicits.
Arguments mkStorageData {num}.

(** ** [Array.prototype.sort] with a comparator

    [before a b] is [compare(a, b) < 0].  The sort of the engine is stable;
    for a comparator that is a weak order every stable sort returns the same
    array, the one this insertion sort builds. *)

Section Sort.
Context {A : Type} (before : A -> A -> bool).

Fixpoint insertSorted (x : A) (l : list A) : list A :=
  match l with
  | [] => [x]
  | y :: l' => if before y x then y :: insertSorted x l' else x :: y :: l'
  end.

Fixpoint sortWith (l : list A) : list A :=
  match l with
  | [] => []
  | x :: l' => insertSorted x (sortWith l')
  end.

End Sort.

Definition dayMs : Z := 86400000.

(** ** The scorer and the pure part of the aggregator *)

Section Scoring.
Context {num : Type} `{JSNumber num}.
Local Open Scope num_scope.

(** [(a, b) => new Date(b.created_at).getTime() - new Date(a.created_at).getTime()] *)
Definition newerFirst (a b : Tweet num) : bool :=
  (created_at b - created_at a <? 0)%Z.

Definition impactScore (tweet : Tweet num) : num :=
  (follower_count tweet * nlit 0.001) + likes tweet + (retweets tweet * nlit 2).

Definition freshnessMultiplier (i : nat) : num :=
  match i with 0%nat => nlit 3 | 1%nat => nlit 2 | _ => nlit 1 end.

Definition decayFactor (i : nat) : num :=
  match i with 0%nat => nlit 1 | 1%nat => nlit 0.5 | _ => nlit 0.25 end.

(** The [for] loop of [calculateUserScore], from index [i] on. *)
Fixpoint scoreLoop (i : nat) (sortedTweets : list (Tweet num)) (totalScore : num) : num :=
  match sortedTweets with
  | [] => totalScore
  | tweet :: rest =>
      scoreLoop (S i) rest
        (totalScore + impactScore tweet * freshnessMultiplier i * decayFactor i)
  end.

(** [username && previousWeekUsers.includes(username)], where [username] is
    [userTweets[0]?.username]: [undefined] and the empty string are falsy. *)
Definition hasConsistencyBonus (userTweets : list (Tweet num))
    (previousWeekUsers : list string) : bool :=
  match userTweets with
  | [] => false
  | first :: _ =>
      bool_decide (username first ≠ "") && bool_decide (username first ∈ previousWeekUsers)
  end.

Definition calculateUserScore (userTweets : list (Tweet num))
    (previousWeekUsers : list string) : num :=
  let sortedTweets := sortWith newerFirst userTweets in
  let totalScore := scoreLoop 0 sortedTweets (nlit 0) in
  let consistencyMultiplier :=
    if hasConsistencyBonus userTweets previousWeekUsers then nlit 1.25 else nlit 1 in
  totalScore * consistencyMultiplier.

End Scoring.

(** ** Mention fetcher ([fetchTwitterMentions])

    The payload of the search integration is untyped in the source.  A metric
    is [Absent] ([null] or [undefined]), [Numeric n] (its [Number(...)] is the
    number [n]) or [NonNumeric] (its [Number(...)] is [NaN]). *)

Inductive RawValue {num : Type} := Absent | Numeric (n : num) | NonNumeric.
Arguments RawValue : clear implicits.

Record RawUser {num : Type} := mkRawUser {
  user_id : string;
  user_username : option string;          (* [None]: the field is missing *)
  user_follower_count : RawValue num      (* [public_metrics?.follower_count] *)
}.
Arguments RawUser : clear implicits.
Arguments mkRawUser {num}.

Record RawTweet {num : Type} := mkRawTweet {
  tweet_id : string;
  author_id : string;
  tweet_created_at : Z;
  like_count : RawValue num;              (* [public_metrics?.like_count] *)
  retweet_count : RawValue num;           (* [public_metrics?.retweet_count] *)
  tweet_text : string                     (* the empty string when missing *)
}.
Arguments RawTweet : clear implicits.
Arguments mkRawTweet {num}.

(** [TwitterResponse]: [data] and [includes_users] are [None] when the field
    is missing or not an array. *)
Record TwitterResponse {num : Type} := mkTwitterResponse {
  data : option (list (RawTweet num));
  includes_users : option (list (RawUser num));
  meta_next_token : option string
}.
Arguments TwitterResponse : clear implicits.
Arguments mkTwitterResponse {num}.

Record Request := mkRequest {
  start_time : Z;
  end_time : Z;
  max_results : nat;
  next_token : option string
}.

(** The integration as seen by one call of the fetcher: the answer to the
    [n]-th request of the call, [None] when [callIntegration] rejects or the
    output does not parse (both are caught by the [try] of the fetcher). *)
Definition Upstream (num : Type) : Type := nat -> Request -> option (TwitterResponse num).

Definition maxPages : nat := 10.

(** Truthiness of [nextToken : string | undefined]. *)
Definition truthy (token : option string) : bool :=
  match token with
  | Some s => bool_decide (s ≠ "")
  | None => false
  end.

Section Fetcher.
Context {num : Type} `{JSNumber num}.

Definition safeNumber (value : RawValue num) (defaultValue : num) : num :=
  match value with
  | Numeric n => n
  | Absent | NonNumeric => defaultValue
  end.

(** The [do ... while (nextToken && pageCount < maxPages)] loop.  [pagesLeft]
    is [maxPages - 1 - pageCount] on entry, which makes the recursion
    structural; when it is [0] the loop condition is false, so the case [O]
    below cuts nothing off (lemma [fetchPages_last_page]) and a larger
    [pagesLeft] gives the same result (lemma [fetchPages_cap]).  The pause
    between two pages is not modelled. *)
Fixpoint fetchPages (upstream : Upstream num) (startTime endTime : Z) (maxResults : nat)
    (pagesLeft pageCount : nat) (nextToken : option string)
    (allTweets : list (RawTweet num)) (allUsers : list (RawUser num))
    : option (list (RawTweet num) * list (RawUser num)) :=
  let pageCount := S pageCount in
  match upstream pageCount
          (mkRequest startTime endTime maxResults
                     (if truthy nextToken then nextToken else None)) with
  | None => None
  | Some responseData =>
      let allTweets := allTweets ++ default [] (data responseData) in
      let allUsers := allUsers ++ default [] (includes_users responseData) in
      let nextToken := meta_next_token responseData in
      if truthy nextToken && (pageCount <? maxPages)%nat then
        match pagesLeft with
        | O => Some (allTweets, allUsers)
        | S pagesLeft' =>
            fetchPages upstream startTime endTime maxResults
                       pagesLeft' pageCount nextToken allTweets allUsers
        end
      else Some (allTweets, allUsers)
  end.

(** The callback of [allTweets.map]. *)
Definition processTweet (allUsers : list (RawUser num)) (tweet : RawTweet num) : Tweet num :=
  let author := List.find (fun user => bool_decide (user_id user = author_id tweet)) allUsers in
  let authorName := author ≫= user_username in
  {| id := tweet_id tweet;
     username := match authorName with
                 | Some s => if bool_decide (s = "") then "unknown" else s
                 | None => "unknown"
                 end;
     follower_count :=
       safeNumber (match author with
                   | Some a => user_follower_count a
                   | None => Absent
                   end) (nlit 0);
     created_at := tweet_created_at tweet;
     likes := safeNumber (like_count tweet) (nlit 0);
     retweets := safeNumber (retweet_count tweet) (nlit 0);
     text := tweet_text tweet;
     url := "https://twitter.com/" +:+ default "undefined" authorName
            +:+ "/status/" +:+ tweet_id tweet |}.

Definition fetchTwitterMentions (upstream : Upstream num) (startTime endTime : Z)
    (maxResults : nat) : list (Tweet num) :=
  match fetchPages upstream startTime endTime maxResults (maxPages - 1) 0 None [] [] with
  | Some (allTweets, allUsers) =>
      filter (fun tweet => username tweet ≠ "unknown") (processTweet allUsers <$> allTweets)
  | None => []
  end.

End Fetcher.

(** ** Record store ([DataStorage]) and merger *)

Definition Disk (num : Type) : Type := option (StorageData num).

Section Store.
Context {num : Type} `{JSNumber num}.

Definition emptyStorage : StorageData num :=
  {| tweets := []; lastFetch := 0; leaderboards := [] |}.

Definition load (disk : Disk num) : StorageData num := default emptyStorage disk.

(** [save]: a failed write is caught and logged, the file stays as it was. *)
Definition save (writeOk : bool) (data : StorageData num) (disk : Disk num) : Disk num :=
  if writeOk then Some data else disk.

(** [subDays] is taken on a clock without daylight-saving shifts. *)
Definition getWeeklyTweets (disk : Disk num) (now : Z) (weekOffset : Z) : list (Tweet num) :=
  let data := load disk in
  let weekStart := (now - (7 + weekOffset * 7) * dayMs)%Z in
  let weekEnd := (now - (weekOffset * 7) * dayMs)%Z in
  filter (fun tweet => (weekStart ≤ created_at tweet)%Z ∧ (created_at tweet < weekEnd)%Z)
         (tweets data).

(** Lines 538-542, shared by [fetchAllMentionsHistorical] and
    [fetchLatestMentionsLive]. *)
Definition newTweetsOf (data : StorageData num) (fetched : list (Tweet num)) : list (Tweet num) :=
  let existingIds : gset string := list_to_set (id <$> tweets data) in
  filter (fun t => id t ∉ existingIds) fetched.

Definition mergeTweets (data : StorageData num) (fetched : list (Tweet num)) (now : Z)
    : StorageData num :=
  {| tweets := tweets data ++ newTweetsOf data fetched;
     lastFetch := now;
     leaderboards := leaderboards data |}.

End Store.

(** ** A plain object used as a map ([tweetsByUser])

    The own properties are kept in creation order.  A key that is not an own
    property is looked up on [Object.prototype]. *)

Definition objectPrototypeKeys : list string :=
  ["constructor"; "__defineGetter__"; "__defineSetter__"; "hasOwnProperty";
   "__lookupGetter__"; "__lookupSetter__"; "isPrototypeOf"; "propertyIsEnumerable";
   "toString"; "valueOf"; "__proto__"; "toLocaleString"].

Definition digitValue (c : ascii) : option N :=
  let n := N_of_ascii c in
  if ((48 <=? n) && (n <=? 57))%N then Some (n - 48)%N else None.

Fixpoint parseDigits (s : string) (acc : N) : option N :=
  match s with
  | EmptyString => Some acc
  | String c s' => d ← digitValue c; parseDigits s' (10 * acc + d)%N
  end.

(** An array index: the canonical decimal form of an integer below 2^32 - 1. *)
Definition arrayIndex (key : string) : option N :=
  match key with
  | EmptyString => None
  | String c rest =>
      if bool_decide (c = "0"%char) then
        (if bool_decide (rest = "") then Some 0%N else None)
      else
        n ← parseDigits key 0;
        if (n <? 2 ^ 32 - 1)%N then Some n else None
  end.

Section JSObject.
Context {V : Type}.

Definition ownProperty (key : string) (obj : list (string * V)) : option V :=
  snd <$> List.find (fun kv => bool_decide (kv.1 = key)) obj.

Definition updateProperty (key : string) (f : V -> V) (obj : list (string * V))
    : list (string * V) :=
  (fun kv => if bool_decide (kv.1 = key) then (kv.1, f kv.2) else kv) <$> obj.

(** [Object.entries]: array indices in ascending order, then the other keys
    in creation order. *)
Definition objectEntries (obj : list (string * V)) : list (string * V) :=
  let indexed := omap (fun kv => n ← arrayIndex kv.1; Some (n, kv)) obj in
  (snd <$> sortWith (fun a b => (a.1 <? b.1)%N) indexed)
  ++ filter (fun kv => arrayIndex kv.1 = None) obj.

End JSObject.

(** ** Aggregator ([scoreAndStore]) *)

(** What one run of [scoreAndStore] reads from its environment: the three
    [new Date()] of its body, [getWeekKey()], and whether the write succeeds. *)
Record ScoreEnv := mkScoreEnv {
  now_current : Z;       (* [new Date()] inside [getWeeklyTweets(0)] *)
  now_previous : Z;      (* [new Date()] inside [getWeeklyTweets(1)] *)
  now_dummy : Z;         (* [new Date()] of the placeholder tweet *)
  week_key : string;     (* [getWeekKey()] *)
  write_ok : bool
}.

Inductive Outcome {num : Type} :=
| NoTweets                               (* the early [return] *)
| Thrown                                 (* a [TypeError] escapes, nothing is saved *)
| Built (leaderboardData : LeaderboardData num).
Arguments Outcome : clear implicits.

Section Aggregator.
Context {num : Type} `{JSNumber num}.
Local Open Scope num_scope.

(** [typeof tweet.id === 'string'] and [typeof tweet.username === 'string']
    hold of every [Tweet]. *)
Definition isValidTweet (tweet : Tweet num) : bool :=
  bool_decide (username tweet ≠ "unknown") && bool_decide (username tweet ≠ "").

(** The body of the [forEach] that fills [tweetsByUser]. *)
Definition pushTweet (tweetsByUser : list (string * list (Tweet num))) (tweet : Tweet num)
    : option (list (string * list (Tweet num))) :=
  match ownProperty (username tweet) tweetsByUser with
  | Some _ => Some (updateProperty (username tweet) (fun ts => ts ++ [tweet]) tweetsByUser)
  | None =>
      if bool_decide (username tweet ∈ objectPrototypeKeys)
      then None    (* the inherited member is truthy and has no [push] *)
      else Some (tweetsByUser ++ [(username tweet, [tweet])])
  end.

Definition groupByUser (validTweets : list (Tweet num))
    : option (list (string * list (Tweet num))) :=
  foldl (fun acc tweet => acc ≫= (fun obj => pushTweet obj tweet)) (Some []) validTweets.

Definition viralScore (tweet : Tweet num) : num :=
  likes tweet + retweets tweet * nlit 2.

(** The callback of both [reduce] calls. *)
Definition moreViral (best current : Tweet num) : Tweet num :=
  if viralScore current >? viralScore best then current else best.

(** [[...new Set(xs)]]: the distinct values in order of first occurrence. *)
Fixpoint uniqueValues (seen : list string) (xs : list string) : list string :=
  match xs with
  | [] => []
  | x :: xs' =>
      if bool_decide (x ∈ seen) then uniqueValues seen xs'
      else x :: uniqueValues (x :: seen) xs'
  end.

Definition lengthNumber {A : Type} (l : list A) : num :=
  nlit (inject_Z (Z.of_nat (length l))).

(** The callback of [Object.entries(tweetsByUser).map].  Every tweet of a
    weekly window has a parsable, hence non-empty, [created_at], so the
    fallback of [lastActive] is not taken and needs no clock. *)
Definition statsOf (previousWeekUsers : list string) (entry : string * list (Tweet num))
    : option (UserStats num) :=
  let '(username, tweets) := entry in
  match tweets with
  | [] => None
  | first :: rest =>
      let score := calculateUserScore tweets previousWeekUsers in
      let avgLikes := foldl (fun sum t => sum + likes t) (nlit 0) tweets / lengthNumber tweets in
      let avgRetweets :=
        foldl (fun sum t => sum + retweets t) (nlit 0) tweets / lengthNumber tweets in
      let topTweet := foldl moreViral first rest in
      Some {| stats_username := username;
              totalScore := score;
              tweetCount := length tweets;
              avgLikes := avgLikes;
              avgRetweets := avgRetweets;
              topTweet := topTweet;
              lastActive := created_at first |}
  end.

(** [(a, b) => b.totalScore - a.totalScore] *)
Definition higherScoreFirst (a b : UserStats num) : bool :=
  (totalScore b - totalScore a) <? nlit 0.

Definition dummyTweet (now : Z) : Tweet num :=
  {| id := "dummy"; username := "none"; follower_count := nlit 0; created_at := now;
     likes := nlit 0; retweets := nlit 0; text := "No tweets this week"; url := "" |}.

Definition mostViralOf (currentWeekTweets : list (Tweet num)) (now : Z) : Tweet num :=
  match currentWeekTweets with
  | first :: rest => foldl moreViral first rest
  | [] => dummyTweet now
  end.

(** Lines 601-668: everything between the two weekly reads and the write. *)
Definition buildLeaderboard (currentWeekTweets previousWeekTweets : list (Tweet num))
    (weekKey : string) (nowDummy : Z) : Outcome num :=
  if bool_decide (length currentWeekTweets = 0%nat) then NoTweets
  else
    match groupByUser (filter (fun t => isValidTweet t = true) currentWeekTweets) with
    | None => Thrown
    | Some tweetsByUser =>
        let previousWeekUsers := uniqueValues [] (username <$> previousWeekTweets) in
        let userStats :=
          filter (fun stat => (totalScore stat >? nlit 0) = true)
                 (omap (statsOf previousWeekUsers) (objectEntries tweetsByUser)) in
        let userStats := sortWith higherScoreFirst userStats in
        Built {| week := weekKey;
                 users := userStats;
                 totalTweets := length currentWeekTweets;
                 mostViralTweet := mostViralOf currentWeekTweets nowDummy |}
    end.

Definition leaderboardOf (env : ScoreEnv) (disk : Disk num) : Outcome num :=
  let currentWeekTweets := getWeeklyTweets disk (now_current env) 0 in
  let previousWeekTweets := getWeeklyTweets disk (now_previous env) 1 in
  buildLeaderboard currentWeekTweets previousWeekTweets (week_key env) (now_dummy env).

(** [xs.slice(-n)] *)
Definition lastN {A : Type} (n : nat) (xs : list A) : list A :=
  drop (length xs - n) xs.

(** Lines 670-678: replace the snapshot of the week or append it, then trim. *)
Definition storeLeaderboard (leaderboardData : LeaderboardData num)
    (data : StorageData num) : StorageData num :=
  let updated :=
    match list_find (fun lb => week lb = week leaderboardData) (leaderboards data) with
    | Some (existingIndex, _) => <[existingIndex := leaderboardData]> (leaderboards data)
    | None => leaderboards data ++ [leaderboardData]
    end in
  {| tweets := tweets data; lastFetch := lastFetch data; leaderboards := lastN 8 updated |}.

Definition scoreAndStore (env : ScoreEnv) (disk : Disk num) : Disk num :=
  match leaderboardOf env disk with
  | NoTweets | Thrown => disk
  | Built leaderboardData =>
      save (write_ok env) (storeLeaderboard leaderboardData (load disk)) disk
  end.

(** What one run of a fetch operation reads from its environment. *)
Record FetchEnv := mkFetchEnv {
  upstream : Upstream num;
  fetch_now : Z;           (* [const now = new Date()] *)
  stamp_now : Z;           (* [new Date()] written to [lastFetch] *)
  fetch_write_ok : bool;
  score_env : ScoreEnv     (* read by the [scoreAndStore] it may trigger *)
}.

Definition fetchAllMentionsHistorical (env : FetchEnv) (disk : Disk num) : Disk num :=
  let now := fetch_now env in
  let startTime := (now - 7 * dayMs)%Z in
  let endTime := (now - 30 * 1000)%Z in
  let fetched := fetchTwitterMentions (upstream env) startTime endTime 100 in
  let data := load disk in
  let newTweets := newTweetsOf data fetched in
  let disk' := save (fetch_write_ok env) (mergeTweets data fetched (stamp_now env)) disk in
  if (0 <? length newTweets)%nat then scoreAndStore (score_env env) disk' else disk'.

Definition fetchLatestMentionsLive (env : FetchEnv) (disk : Disk num) : Disk num :=
  let data := load disk in
  let lastFetch := lastFetch data in
  let now := fetch_now env in
  let thirtyMinutesAgo := (now - 30 * 60000)%Z in
  let startTime := if (thirtyMinutesAgo <? lastFetch)%Z then lastFetch else thirtyMinutesAgo in
  let endTime := (now - 30 * 1000)%Z in
  let fetched := fetchTwitterMentions (upstream env) startTime endTime 50 in
  let newTweets := newTweetsOf data fetched in
  let disk' := save (fetch_write_ok env) (mergeTweets data fetched (stamp_now env)) disk in
  if (0 <? length newTweets)%nat then scoreAndStore (score_env env) disk' else disk'.

End Aggregator.
Arguments FetchEnv : clear implicits.

(** ** The fallback ranking ([generateSimpleLeaderboard])

    The rendering of the entries into the text of the message ([toFixed],
    template strings) is outside the model: the functions below stop at the
    values the text is made of. *)

(** [obj[key] = value] for a primitive [value]: an own property is
    overwritten, a new one is created last; a primitive written to
    ["__proto__"] is ignored. *)
Definition assignPrimitive {V : Type} (key : string) (value : V) (obj : list (string * V))
    : list (string * V) :=
  if bool_decide (key = "__proto__") then obj
  else match ownProperty key obj with
       | Some _ => updateProperty key (fun _ => value) obj
       | None => obj ++ [(key, value)]
       end.

Inductive SimpleOutcome {num : Type} :=
| NoMentions                                  (* "No OpenServ mentions found this week!" *)
| SimpleThrown                                (* a [TypeError] escapes *)
| NoValidScores                               (* "No valid scores found this week!" *)
| Ranking (entries : list (string * num)).    (* the lines of the leaderboard, in order *)
Arguments SimpleOutcome : clear implicits.

Section SimpleLeaderboard.
Context {num : Type} `{JSNumber num}.
Local Open Scope num_scope.

(** Lines 706-719.  The inner [forEach] is the loop of [calculateUserScore]
    run on the group as it stands, without sorting it. *)
Definition userScoresOf (tweetsByUser : list (string * list (Tweet num)))
    : list (string * num) :=
  foldl (fun userScores entry =>
           match entry.2 with
           | [] => userScores
           | _ :: _ => assignPrimitive entry.1 (scoreLoop 0 entry.2 (nlit 0)) userScores
           end)
        [] (objectEntries tweetsByUser).

(** [(a, b) => b[1] - a[1]] *)
Definition higherEntryFirst (a b : string * num) : bool :=
  (b.2 - a.2) <? nlit 0.

(** Lines 695-724.  [!isNaN(score) && score > 0] is [score > 0]: the
    comparison is false of [NaN]. *)
Definition simpleRanking (tweets : list (Tweet num)) : option (list (string * num)) :=
  match groupByUser (filter (fun t => isValidTweet t = true) tweets) with
  | None => None
  | Some tweetsByUser =>
      Some (take 10
              (sortWith higherEntryFirst
                 (filter (fun entry => (entry.2 >? nlit 0) = true)
                         (objectEntries (userScoresOf tweetsByUser)))))
  end.

Definition generateSimpleLeaderboard (upstream : Upstream num) (now : Z) : SimpleOutcome num :=
  let tweets := fetchTwitterMentions upstream (now - 7 * dayMs)%Z (now - 30 * 1000)%Z 100 in
  if bool_decide (length tweets = 0%nat) then NoMentions
  else match simpleRanking tweets with
       | None => SimpleThrown
       | Some [] => NoValidScores
       | Some (entry :: entries) => Ranking (entry :: entries)
       end.

End SimpleLeaderboard.

(** ** Bot commands: the values behind the replies

    [getWeekKey()] is read from the environment as [weekKey], and
    [String.prototype.toLowerCase] is a parameter. *)

(** [xs.findIndex(p)]: the index of the first match, [-1] without one. *)
Definition findIndex {A : Type} (p : A -> bool) (xs : list A) : Z :=
  match list_find (fun x => p x = true) xs with
  | Some (i, _) => Z.of_nat i
  | None => (-1)%Z
  end.

Inductive MyXpReply {num : Type} :=
| Usage                                         (* no user name in the command *)
| NoLeaderboardData                             (* no snapshot of the current week *)
| NotPosted (requestedUser : string)
| UserReport (rank : Z) (userStats : UserStats num).
Arguments MyXpReply : clear implicits.

Inductive LeaderboardReply {num : Type} :=
| Fallback (simple : SimpleOutcome num)          (* [generateSimpleLeaderboard] *)
| Board (top10 : list (UserStats num)) (viral : option (string * num)).
Arguments LeaderboardReply : clear implicits.

Record Analytics {num : Type} := mkAnalytics {
  totalUsers : nat;
  analyticsTweets : nat;                        (* [leaderboard.totalTweets] *)
  avgScore : num;
  fastestRiser : option (string * Z);           (* handle and places gained; [None] is "N/A" *)
  analyticsViral : string                       (* [leaderboard.mostViralTweet.username] *)
}.
Arguments Analytics : clear implicits.
Arguments mkAnalytics {num}.

Section Commands.
Context {num : Type} `{JSNumber num}.
Variable toLowerCase : string -> string.
Local Open Scope num_scope.

(** [data.leaderboards.find(lb => lb.week === getWeekKey())] *)
Definition findLeaderboard (weekKey : string) (data : StorageData num)
    : option (LeaderboardData num) :=
  List.find (fun lb => bool_decide (week lb = weekKey)) (leaderboards data).

(** The [/myxp] handler, lines 821-853.  [requestedUser] is the capture
    group of the command: [None] when it did not take part in the match. *)
Definition myxp (requestedUser : option string) (weekKey : string) (disk : Disk num)
    : MyXpReply num :=
  match requestedUser with
  | None => Usage
  | Some requested =>
      if bool_decide (requested = "") then Usage
      else
        match findLeaderboard weekKey (load disk) with
        | None => NoLeaderboardData
        | Some leaderboard =>
            let sameUser (u : UserStats num) :=
              bool_decide (toLowerCase (stats_username u) = toLowerCase requested) in
            match List.find sameUser (users leaderboard) with
            | None => NotPosted requested
            | Some userStats =>
                UserReport (findIndex sameUser (users leaderboard) + 1)%Z userStats
            end
        end
  end.

(** [sendLeaderboardToTelegram], lines 736-752; the [/leaderboard] handler
    takes the same decision and shows the same ten users. *)
Definition sendLeaderboardToTelegram (upstream : Upstream num) (now : Z) (weekKey : string)
    (disk : Disk num) : LeaderboardReply num :=
  match findLeaderboard weekKey (load disk) with
  | None => Fallback (generateSimpleLeaderboard upstream now)
  | Some leaderboard =>
      if bool_decide (length (users leaderboard) = 0%nat)
      then Fallback (generateSimpleLeaderboard upstream now)
      else
        Board (take 10 (users leaderboard))
              (if bool_decide (username (mostViralTweet leaderboard) ≠ "none")
               then Some (username (mostViralTweet leaderboard),
                          likes (mostViralTweet leaderboard)
                          + retweets (mostViralTweet leaderboard) * nlit 2)
               else None)
  end.

(** The [for ... of] loop of the [/analytics] handler, lines 897-904. *)
Fixpoint findRiser (candidates : list (UserStats num))
    (current previous : list (UserStats num)) : option (string * Z) :=
  match candidates with
  | [] => None
  | user :: rest =>
      let sameName (u : UserStats num) :=
        bool_decide (stats_username u = stats_username user) in
      let prevRank := findIndex sameName previous in
      let currentRank := findIndex sameName current in
      if (currentRank <? prevRank)%Z && (0 <=? prevRank)%Z
      then Some (stats_username user, (prevRank - currentRank)%Z)
      else findRiser rest current previous
  end.

(** The [/analytics] handler, lines 883-914; [None] is the reply
    "No analytics data available". *)
Definition analytics (weekKey : string) (disk : Disk num) : option (Analytics num) :=
  let data := load disk in
  match findLeaderboard weekKey data with
  | None => None
  | Some leaderboard =>
      let totalUsers := length (users leaderboard) in
      let avgScore :=
        if (0 <? totalUsers)%nat
        then foldl (fun sum u => sum + totalScore u) (nlit 0) (users leaderboard)
             / lengthNumber (users leaderboard)
        else nlit 0 in
      let prevWeek :=
        List.find (fun lb => bool_decide (week lb ≠ weekKey)) (leaderboards data) in
      let fastestRiser :=
        match prevWeek with
        | Some prevWeek =>
            findRiser (take 5 (users leaderboard)) (users leaderboard) (users prevWeek)
        | None => None
        end in
      Some {| totalUsers := totalUsers;
              analyticsTweets := totalTweets leaderboard;
              avgScore := avgScore;
              fastestRiser := fastestRiser;
              analyticsViral := username (mostViralTweet leaderboard) |}
  end.

End Commands.

(** ** The exact value of a double

    Every finite double is an integer multiple of 2^-1074.  [floatValue] is
    that rational; it is [None] for an infinity and for [NaN]. *)

Definition floatScale : positive := 2 ^ 1074.

Definition SFvalue (s : spec_float) : option Q :=
  match s with
  | S754_zero _ => Some 0%Q
  | S754_finite sg m e => Some (cond_Zopp sg (Z.pos m * 2 ^ (e + 1074)) # floatScale)
  | _ => None
  end.

Definition floatValue (x : float) : option Q := SFvalue (Prim2SF x).

(** The order of the doubles greater than zero, read on their values:
    [None] is the positive infinity. *)
Definition valueLt (a b : option Q) : Prop :=
  match a, b with
  | Some x, Some y => (x < y)%Q
  | Some _, None => True
  | None, _ => False
  end.

(** ** Predicates used in the statements *)

(** No element is strictly before its predecessor: the array is already in
    the order the comparator asks for. *)
Fixpoint inOrder {A : Type} (before : A -> A -> bool) (l : list A) : Prop :=
  match l with
  | x :: l' =>
      match l' with
      | y :: _ => before y x = false ∧ inOrder before l'
      | [] => True
      end
  | [] => True
  end.

(** [t] is the earliest record of [l] with the maximal viral score. *)
Definition firstMaximal (l : list (Tweet Q)) (t : Tweet Q) : Prop :=
  ∃ l1 l2, l = l1 ++ t :: l2
    ∧ (∀ x, x ∈ l1 → (viralScore x < viralScore t)%Q)
    ∧ (∀ x, x ∈ l2 → (viralScore x <= viralScore t)%Q).

(** [obj] holds, under each handle, the records of [l] with that handle, in
    the order of [l], and every handle of [l] is a key. *)
Definition groupedBy {num : Type} (l : list (Tweet num))
    (obj : list (string * list (Tweet num))) : Prop :=
  (∀ k ts, (k, ts) ∈ obj → ts = filter (fun t => username t = k) l ∧ ts ≠ [])
  ∧ (∀ t, t ∈ l → ∃ ts, (username t, ts) ∈ obj).

(** The invariant of the snapshot list. *)
Definition snapshotsOk {num : Type} (lbs : list (LeaderboardData num)) : Prop :=
  NoDup (week <$> lbs) ∧ (length lbs ≤ 8)%nat.







(** The stores the program can leave on disk, starting without a file. *)
Inductive reachable {num : Type} `{JSNumber num} : Disk num -> Prop :=
| reach_absent : reachable None
| reach_score env disk :
    reachable disk -> reachable (scoreAndStore env disk)
| reach_historical env disk :
    reachable disk -> reachable (fetchAllMentionsHistorical env disk)
| reach_live env disk :
    reachable disk -> reachable (fetchLatestMentionsLive env disk).

(** The valid records of a window that carry the handle [u], in store order. *)
Definition userGroup {num : Type} `{JSNumber num} (window : list (Tweet num)) (u : string)
    : list (Tweet num) :=
  filter (fun t => username t = u) (filter (fun t => isValidTweet t = true) window).

(** The list is in ranking order for [before]: no later element is strictly
    before an earlier one. *)
Definition rankedBy {A : Type} (before : A -> A -> bool) (l : list A) : Prop :=
  ∀ i j a b, (i < j)%nat → l !! i = Some a → l !! j = Some b → before b a = false.

(** ** Sample inputs of the concrete runs *)

Definition repeatedTweet : RawTweet Q :=
  mkRawTweet "1" "u1" 1000 (Numeric 3%Q) (Numeric 1%Q) "gm OpenServ".

Definition otherTweet : RawTweet Q :=
  mkRawTweet "2" "u1" 2000 (Numeric 0%Q) Absent "OpenServ again".

Definition sampleAuthor : RawUser Q := mkRawUser "u1" (Some "alice") (Numeric 200%Q).

(** The second page repeats the tweet of the first page. *)
Definition repeatingUpstream : Upstream Q := fun n _ =>
  match n with
  | 1%nat => Some (mkTwitterResponse (Some [repeatedTweet]) (Some [sampleAuthor]) (Some "page2"))
  | _ => Some (mkTwitterResponse (Some [repeatedTweet]) None None)
  end.

(** Two pages with one tweet each, of distinct ids. *)
Definition distinctUpstream : Upstream Q := fun n _ =>
  match n with
  | 1%nat => Some (mkTwitterResponse (Some [repeatedTweet]) (Some [sampleAuthor]) (Some "page2"))
  | _ => Some (mkTwitterResponse (Some [otherTweet]) None None)
  end.

Definition sampleScoreEnv : ScoreEnv := mkScoreEnv dayMs dayMs dayMs "1969-12-28" true.

Definition repeatingEnv : FetchEnv Q :=
  mkFetchEnv repeatingUpstream dayMs dayMs true sampleScoreEnv.

(** Two fetch cycles: the first finds tweet "1", the second, later, finds
    the newer tweet "2" (and tweet "1" again, newest first). *)
Definition firstFetchEnv : FetchEnv Q :=
  mkFetchEnv
    (fun _ _ => Some (mkTwitterResponse (Some [repeatedTweet]) (Some [sampleAuthor]) None))
    dayMs dayMs true sampleScoreEnv.

Definition secondFetchEnv : FetchEnv Q :=
  mkFetchEnv
    (fun _ _ => Some (mkTwitterResponse (Some [otherTweet; repeatedTweet])
                                        (Some [sampleAuthor]) None))
    dayMs dayMs true sampleScoreEnv.

(** A store whose only record of the week has no engagement at all. *)
Definition silentTweet : Tweet Q :=
  mkTweet "7" "bob" 0%Q 5000 0%Q 0%Q "OpenServ" "https://twitter.com/bob/status/7".

Definition silentDisk : Disk Q := Some (mkStorageData [silentTweet] 0 []).

(** Two records of the week with the same [likes + 2 * retweets]. *)
Definition tiedFirst : Tweet Q :=
  mkTweet "8" "carol" 10%Q 6000 4%Q 1%Q "OpenServ" "https://twitter.com/carol/status/8".

Definition tiedSecond : Tweet Q :=
  mkTweet "9" "dave" 10%Q 7000 6%Q 0%Q "#OpenServ" "https://twitter.com/dave/status/9".

Definition olderCarol : Tweet Q :=
  mkTweet "5" "carol" 10%Q 3000 1%Q 0%Q "gm OpenServ" "https://twitter.com/carol/status/5".

(** A store with an unranked user (no engagement) and two ranked ones. *)
Definition rankedDisk : Disk Q :=
  Some (mkStorageData [silentTweet; tiedFirst; tiedSecond; olderCarol] 0 []).




(** Every page announces a next one. *)
Definition endlessUpstream : Upstream Q := fun _ _ =>
  Some (mkTwitterResponse (Some [repeatedTweet]) (Some [sampleAuthor]) (Some "more")).

(** Answers like [endlessUpstream] to the ten requests a call can make, and
    fails on any later one. *)
Definition cutUpstream : Upstream Q := fun n req =>
  if (n <=? maxPages)%nat then endlessUpstream n req else None.

(** Lower-casing of the letters A to Z, an instance of [toLowerCase] on
    handles made of ASCII letters, digits and underscores. *)
Fixpoint asciiLower (s : string) : string :=
  match s with
  | EmptyString => EmptyString
  | String c s' =>
      let n := N_of_ascii c in
      String (if ((65 <=? n) && (n <=? 90))%N then ascii_of_N (n + 32) else c)
             (asciiLower s')
  end.

(** A store with the snapshot of an earlier week, in which dave led, and the
    snapshot of the current week built from [rankedDisk]. *)
Definition earlierSnapshot : LeaderboardData Q :=
  mkLeaderboardData "1969-12-21"
    [mkUserStats "dave" 30%Q 2 5%Q 1%Q tiedSecond 7000;
     mkUserStats "erin" 12%Q 1 2%Q 0%Q silentTweet 5000;
     mkUserStats "carol" 3%Q 1 1%Q 0%Q olderCarol 3000]
    4 tiedSecond.

Definition twoWeekDisk : Disk Q :=
  scoreAndStore sampleScoreEnv
    (Some (mkStorageData [silentTweet; tiedFirst; tiedSecond; olderCarol] 0 [earlierSnapshot])).

(** A later record of carol with the same [likes + 2 * retweets] as
    [tiedFirst]. *)
Definition tiedThird : Tweet Q :=
  mkTweet "10" "carol" 10%Q 6500 6%Q 0%Q "OpenServ gm" "https://twitter.com/carol/status/10".

Definition tiedDisk : Disk Q :=
  Some (mkStorageData [olderCarol; tiedFirst; tiedSecond; tiedThird] 0 []).

Definition emptySnapshot (weekKey : string) : LeaderboardData Q :=
  mkLeaderboardData weekKey [] 1 silentTweet.

(** The snapshot of the current week is the second of three. *)
Definition staleDisk : Disk Q :=
  Some (mkStorageData [silentTweet; tiedFirst; tiedSecond; olderCarol] 0
          [emptySnapshot "1969-12-14"; emptySnapshot "1969-12-28"; earlierSnapshot]).

(** Eight snapshots of earlier weeks, oldest first. *)
Definition fullDisk : Disk Q :=
  Some (mkStorageData [silentTweet; tiedFirst; tiedSecond; olderCarol] 0
          (emptySnapshot <$> ["1969-11-02"; "1969-11-09"; "1969-11-16"; "1969-11-23";
                              "1969-11-30"; "1969-12-07"; "1969-12-14"; "1969-12-21"])).


Definition mentionOf (name : string) (followers likes : float) (created : Z) : Tweet float :=
  mkTweet name name followers created likes 0%float "OpenServ" "".

Definition aliceMention : Tweet float :=
  mkTweet "1" "alice" 200%float 1000 4%float 1%float "gm" "u".

(** ben's record is stored first.  Read as decimals both users have the
    impact 3.433; as doubles ann's is one unit in the last place larger. *)
Definition closeDisk : Disk float :=
  Some (mkStorageData [mentionOf "ben" 1433 2 5000; mentionOf "ann" 3433 0 6000] 0 []).

Definition elevenMentions : list (Tweet float) :=
  [mentionOf "u01" 0 1 1000; mentionOf "u02" 0 2 1001; mentionOf "u03" 0 3 1002;
   mentionOf "u04" 0 4 1003; mentionOf "u05" 0 5 1004; mentionOf "u06" 0 6 1005;
   mentionOf "u07" 0 7 1006; mentionOf "u08" 0 8 1007; mentionOf "u09" 0 9 1008;
   mentionOf "u10" 0 10 1009; mentionOf "u11" 0 11 1010].

(** * Properties *)

(** ** Sorting *)

Section SortFacts.
Context {A : Type} (before : A -> A -> bool).

Lemma insertSorted_perm x l : insertSorted before x l ≡ₚ x :: l.
Proof.
  induction l as [|y l IH]; simpl; [done|].
  destruct (before y x); [|done].
  rewrite IH. apply Permutation_swap.
Qed.

Lemma sortWith_perm l : sortWith before l ≡ₚ l.
Proof.
  induction l as [|x l IH]; simpl; [done|].
  by rewrite insertSorted_perm, IH.
Qed.

Lemma sortWith_inOrder l : inOrder before l → sortWith before l = l.
Proof.
  induction l as [|x l IH]; [done|].
  intros Hord. simpl in *. destruct l as [|y l].
  - done.
  - destruct Hord as [Hyx Hrest]. rewrite (IH Hrest). simpl. by rewrite Hyx.
Qed.

Lemma elem_of_sortWith x l : x ∈ sortWith before l ↔ x ∈ l.
Proof. by rewrite sortWith_perm. Qed.

End SortFacts.

(** ** Binary64

    Facts about the primitive operations, from their specification
    ([FloatAxioms]) in terms of [SpecFloat]. *)

Lemma digits2_pos_bounds (m : positive) :
  (2 ^ (Z.pos (digits2_pos m) - 1) ≤ Z.pos m < 2 ^ Z.pos (digits2_pos m))%Z.
Proof.
  induction m as [m IH|m IH|]; simpl digits2_pos; rewrite ?Pos2Z.inj_succ.
  - replace (Z.succ (Z.pos (digits2_pos m)) - 1)%Z
      with (Z.succ (Z.pos (digits2_pos m) - 1)) by lia.
    rewrite !Z.pow_succ_r by lia. lia.
  - replace (Z.succ (Z.pos (digits2_pos m)) - 1)%Z
      with (Z.succ (Z.pos (digits2_pos m) - 1)) by lia.
    rewrite !Z.pow_succ_r by lia. lia.
  - simpl. lia.
Qed.

(** A canonical mantissa has at most 53 digits, exactly 53 above the least
    exponent. *)
Lemma bounded_inv (m : positive) (e : Z) :
  bounded prec emax m e = true →
  (-1074 ≤ e)%Z ∧ (Z.pos m < 2 ^ 53)%Z ∧ ((-1074 < e)%Z → (2 ^ 52 ≤ Z.pos m)%Z).
Proof.
  unfold bounded, canonical_mantissa, fexp, emin, prec, emax.
  intros [Hc _]%andb_true_iff. apply Z.eqb_eq in Hc.
  pose proof (digits2_pos_bounds m) as [Hlo Hhi].
  assert (Hd : (Z.pos (digits2_pos m) ≤ 53)%Z) by lia.
  split; [lia|]. split.
  - apply (Z.lt_le_trans _ _ _ Hhi). apply Z.pow_le_mono_r; lia.
  - intros He. replace (Z.pos (digits2_pos m)) with 53%Z in Hlo by lia. exact Hlo.
Qed.

Lemma magnitude_lt (m1 m2 : positive) (e1 e2 : Z) :
  bounded prec emax m1 e1 = true → bounded prec emax m2 e2 = true →
  (e1 < e2)%Z → (Z.pos m1 * 2 ^ (e1 + 1074) < Z.pos m2 * 2 ^ (e2 + 1074))%Z.
Proof.
  intros [H1 [Hm1 _]]%bounded_inv [H2 [_ Hm2]]%bounded_inv He.
  specialize (Hm2 ltac:(lia)).
  assert (Hp : (0 < 2 ^ (e1 + 1074))%Z) by (apply Z.pow_pos_nonneg; lia).
  assert (Hq : (2 * 2 ^ (e1 + 1074) ≤ 2 ^ (e2 + 1074))%Z).
  { rewrite <- Z.pow_succ_r by lia. apply Z.pow_le_mono_r; lia. }
  change (2 ^ 53)%Z with (2 * 2 ^ 52)%Z in Hm1. nia.
Qed.

Lemma Zcompare_mul_r (n m p : Z) : (0 < p)%Z → (n * p ?= m * p)%Z = (n ?= m)%Z.
Proof.
  intros Hp. destruct (Z.compare_spec n m) as [->|Hlt|Hgt].
  - apply Z.compare_refl.
  - apply Z.compare_lt_iff. nia.
  - apply Z.compare_gt_iff. nia.
Qed.

Lemma SFcompare_value (s1 s2 : spec_float) (q1 q2 : Q) :
  valid_binary s1 = true → valid_binary s2 = true →
  SFvalue s1 = Some q1 → SFvalue s2 = Some q2 →
  SFcompare s1 s2 = Some (q1 ?= q2)%Q.
Proof.
  intros Hv1 Hv2 E1 E2.
  assert (Hpos : ∀ m e, bounded prec emax m e = true → (0 < Z.pos m * 2 ^ (e + 1074))%Z).
  { intros m e [He _]%bounded_inv.
    apply Z.mul_pos_pos; [lia|apply Z.pow_pos_nonneg; lia]. }
  destruct s1 as [b1| | |b1 m1 e1], s2 as [b2| | |b2 m2 e2];
    cbn [SFvalue] in E1, E2; simplify_eq; cbn [valid_binary] in Hv1, Hv2;
    cbn [SFcompare]; f_equal; unfold Qcompare; cbn [Qnum Qden].
  - pose proof (Hpos _ _ Hv2) as Hp. revert Hp.
    generalize (Z.pos m2 * 2 ^ (e2 + 1074))%Z. intros z Hz.
    symmetry. destruct b2; cbn [cond_Zopp];
      [apply Z.compare_gt_iff|apply Z.compare_lt_iff]; lia.
  - pose proof (Hpos _ _ Hv1) as Hp. revert Hp.
    generalize (Z.pos m1 * 2 ^ (e1 + 1074))%Z. intros z Hz.
    symmetry. destruct b1; cbn [cond_Zopp];
      [apply Z.compare_lt_iff|apply Z.compare_gt_iff]; lia.
  - assert (Hmag : match (e1 ?= e2)%Z with
                   | Lt => Lt | Gt => Gt | Eq => Pos.compare_cont Eq m1 m2 end
                   = (Z.pos m1 * 2 ^ (e1 + 1074) ?= Z.pos m2 * 2 ^ (e2 + 1074))%Z).
    { pose proof (bounded_inv _ _ Hv1) as [He1 _].
      destruct (Z.compare_spec e1 e2) as [->|Hlt|Hgt].
      - change (Pos.compare_cont Eq m1 m2) with (Z.pos m1 ?= Z.pos m2)%Z.
        symmetry. apply Zcompare_mul_r. apply Z.pow_pos_nonneg; lia.
      - symmetry. apply Z.compare_lt_iff. by apply magnitude_lt.
      - symmetry. apply Z.compare_gt_iff. by apply magnitude_lt. }
    pose proof (Hpos _ _ Hv1) as Hp1. pose proof (Hpos _ _ Hv2) as Hp2.
    revert Hmag Hp1 Hp2.
    generalize (Z.pos m1 * 2 ^ (e1 + 1074))%Z (Z.pos m2 * 2 ^ (e2 + 1074))%Z.
    intros z1 z2 Hmag Hp1 Hp2.
    rewrite <- (Zcompare_mul_r z1 z2 (Z.pos floatScale)) in Hmag by lia.
    destruct b1, b2; cbn [cond_Zopp].
    + replace (- z1 * Z.pos floatScale)%Z with (- (z1 * Z.pos floatScale))%Z by lia.
      replace (- z2 * Z.pos floatScale)%Z with (- (z2 * Z.pos floatScale))%Z by lia.
      rewrite Z.compare_opp,
        (Z.compare_antisym (z1 * Z.pos floatScale) (z2 * Z.pos floatScale)), <- Hmag.
      by destruct (e1 ?= e2)%Z.
    + symmetry. apply Z.compare_lt_iff.
      pose proof (Pos2Z.is_pos floatScale). nia.
    + symmetry. apply Z.compare_gt_iff.
      pose proof (Pos2Z.is_pos floatScale). nia.
    + exact Hmag.
Qed.


(** Multiplying by 1 is exact. *)
Lemma iter_pos_shr_zero (m : positive) :
  SpecFloat.iter_pos shr_1 52
    {| shr_m := Zpos (Pos.mul 4503599627370496 m); shr_r := false; shr_s := false |}
  = {| shr_m := Zpos m; shr_r := false; shr_s := false |}.
Proof. reflexivity. Qed.

Lemma digits_shift (m : positive) :
  Zpos (digits2_pos (Pos.mul 4503599627370496 m)) = (Zpos (digits2_pos m) + 52)%Z.
Proof. simpl. rewrite Pos.mul_1_l, !Pos2Z.inj_succ. lia. Qed.

Lemma SFmul_1_r (s : spec_float) :
  valid_binary s = true → SF64mul s (S754_finite false 4503599627370496 (-52)) = s.
Proof.
  destruct s as [b|b| |b m e]; intros Hv;
    [by destruct b|by destruct b|done|].
  unfold SF64mul, SFmul. rewrite (Pos.mul_comm m), xorb_false_r.
  simpl in Hv. unfold bounded, canonical_mantissa in Hv.
  apply andb_true_iff in Hv as [Hc Hb].
  apply Z.eqb_eq in Hc. apply Z.leb_le in Hb.
  unfold binary_round_aux, shr_fexp.
  unfold Zdigits2 at 1. rewrite digits_shift.
  replace (Z.pos (digits2_pos m) + 52 + (e + -52))%Z with (Z.pos (digits2_pos m) + e)%Z by lia.
  rewrite Hc.
  replace (e - (e + -52))%Z with 52%Z by lia.
  unfold shr at 1.
  change (shr_record_of_loc (Z.pos (4503599627370496 * m)) loc_Exact)
    with {| shr_m := Z.pos (4503599627370496 * m); shr_r := false; shr_s := false |}.
  rewrite iter_pos_shr_zero.
  cbn [shr_m loc_of_shr_record round_nearest_even Zdigits2].
  replace (e + -52 + 52)%Z with e by lia.
  rewrite Hc, Z.sub_diag. cbn [shr shr_record_of_loc shr_m].
  apply Z.leb_le in Hb. by rewrite Hb.
Qed.

Lemma float_mul_1_r (x : float) : (x * 1)%float = x.
Proof.
  apply Prim2SF_inj. rewrite mul_spec.
  change (Prim2SF 1) with (S754_finite false 4503599627370496 (-52)).
  apply SFmul_1_r, Prim2SF_valid.
Qed.

Lemma float_zero_literal : nlit (num:=float) 0 = 0%float.
Proof. vm_compute. reflexivity. Qed.

Lemma float_one_literal : nlit (num:=float) 1 = 1%float.
Proof. vm_compute. reflexivity. Qed.

(** Rounding never loses the sign. *)
Lemma shr_m_shr_1 (r : shr_record) : (0 ≤ shr_m r)%Z → shr_m (shr_1 r) = (shr_m r / 2)%Z.
Proof.
  destruct r as [m r s]. cbn [shr_m]. intros Hm.
  destruct m as [|[q|q|]|q]; unfold shr_1; cbn [shr_m]; [done| | |done|lia].
  - rewrite Pos2Z.inj_xI. apply (Z.div_unique _ 2 _ 1); lia.
  - rewrite Pos2Z.inj_xO. apply (Z.div_unique _ 2 _ 0); lia.
Qed.

Lemma shr_m_iter (p : positive) (r : shr_record) :
  (0 ≤ shr_m r)%Z → shr_m (SpecFloat.iter_pos shr_1 p r) = (shr_m r / 2 ^ Z.pos p)%Z.
Proof.
  revert r. induction p as [p IH|p IH|]; intros r Hr; simpl SpecFloat.iter_pos.
  - assert (Hpow : (2 ^ Z.pos p~1 = 2 * 2 ^ Z.pos p * 2 ^ Z.pos p)%Z).
    { rewrite Pos2Z.inj_xI, <- Z.pow_succ_r, <- Z.pow_add_r by lia. f_equal. lia. }
    assert (Hp : (0 < 2 ^ Z.pos p)%Z) by (apply Z.pow_pos_nonneg; lia).
    assert (H1 : (0 ≤ shr_m (shr_1 r))%Z).
    { rewrite shr_m_shr_1 by done. apply Z.div_pos; lia. }
    assert (H2 : (0 ≤ shr_m (SpecFloat.iter_pos shr_1 p (shr_1 r)))%Z).
    { rewrite IH by done. by apply Z.div_pos. }
    rewrite IH, IH, shr_m_shr_1, Hpow by done.
    rewrite !Z.div_div by lia. f_equal. ring.
  - assert (Hpow : (2 ^ Z.pos p~0 = 2 ^ Z.pos p * 2 ^ Z.pos p)%Z).
    { rewrite Pos2Z.inj_xO, <- Z.pow_add_r by lia. f_equal. lia. }
    assert (Hp : (0 < 2 ^ Z.pos p)%Z) by (apply Z.pow_pos_nonneg; lia).
    assert (H2 : (0 ≤ shr_m (SpecFloat.iter_pos shr_1 p r))%Z).
    { rewrite IH by done. by apply Z.div_pos. }
    rewrite IH, IH, Hpow by done.
    rewrite !Z.div_div by lia. done.
  - by rewrite shr_m_shr_1.
Qed.

Lemma shr_m_of_loc (m : Z) (l : location) : shr_m (shr_record_of_loc m l) = m.
Proof. by destruct l as [|[]]. Qed.

(** Shifting a positive mantissa down to its precision leaves it positive. *)
Lemma shr_fexp_pos (m : positive) (e : Z) (l : location) :
  (-1074 ≤ e)%Z →
  (0 < shr_m (shr_fexp prec emax (Z.pos m) e l).1)%Z
  ∧ (-1074 ≤ (shr_fexp prec emax (Z.pos m) e l).2)%Z.
Proof.
  intros He. unfold shr_fexp, shr, fexp, emin, prec, emax. cbn [Zdigits2].
  pose proof (digits2_pos_bounds m) as [Hlo Hhi].
  set (d := Z.pos (digits2_pos m)) in *.
  destruct (Z.max (d + e - 53) (3 - 1024 - 53) - e)%Z as [|n|n] eqn:Hn; cbn [fst snd].
  - rewrite shr_m_of_loc. lia.
  - rewrite shr_m_iter by (rewrite shr_m_of_loc; lia).
    rewrite shr_m_of_loc. split; [|lia].
    apply Z.div_str_pos. split; [apply Z.pow_pos_nonneg; lia|].
    apply (Z.le_trans _ (2 ^ (d - 1))); [|done].
    apply Z.pow_le_mono_r; lia.
  - rewrite shr_m_of_loc. lia.
Qed.

Lemma round_nearest_even_pos (m : Z) (l : location) :
  (0 < m)%Z → (0 < round_nearest_even m l)%Z.
Proof.
  intros Hm. unfold round_nearest_even.
  destruct l as [|[]]; try done; [destruct (Z.even m)|]; lia.
Qed.

(** Rounding a positive mantissa gives a finite number or an infinity of the
    sign asked for, never a zero. *)
Lemma binary_round_aux_sign (sx : bool) (m : positive) (e : Z) (l : location) :
  (-1074 ≤ e)%Z →
  (∃ m' e', binary_round_aux prec emax sx (Z.pos m) e l = S754_finite sx m' e')
  ∨ binary_round_aux prec emax sx (Z.pos m) e l = S754_infinity sx.
Proof.
  intros He. unfold binary_round_aux.
  pose proof (shr_fexp_pos m e l He) as [Hm1 He1].
  destruct (shr_fexp prec emax (Z.pos m) e l) as [mrs' e']. cbn [fst snd] in *.
  pose proof (round_nearest_even_pos _ (loc_of_shr_record mrs') Hm1) as Hr.
  destruct (round_nearest_even (shr_m mrs') (loc_of_shr_record mrs')) as [|m1|m1];
    [lia| |lia].
  pose proof (shr_fexp_pos m1 e' loc_Exact He1) as [Hm2 _].
  destruct (shr_fexp prec emax (Z.pos m1) e' loc_Exact) as [mrs'' e'']. cbn [fst snd] in *.
  destruct (shr_m mrs'') as [|m2|m2]; [lia| |lia].
  destruct (e'' <=? emax - prec)%Z; [left; by eexists _, _|by right].
Qed.

Lemma iter_double (d : positive) (z : Z) :
  Pos.iter (Z.mul 2) z d = (z * 2 ^ Z.pos d)%Z.
Proof.
  induction d as [|d IH] using Pos.peano_ind.
  - simpl. lia.
  - rewrite Pos.iter_succ, IH, Pos2Z.inj_succ, Z.pow_succ_r by lia. ring.
Qed.

Lemma shl_align_spec (m : positive) (e e' : Z) :
  (e' ≤ e)%Z →
  Z.pos (shl_align m e e').1 = (Z.pos m * 2 ^ (e - e'))%Z.
Proof.
  intros He. unfold shl_align.
  destruct (e' - e)%Z as [|d|d] eqn:Hd; cbn [fst].
  - replace (e - e')%Z with 0%Z by lia. simpl. lia.
  - lia.
  - replace (e - e')%Z with (Z.pos d) by lia.
    rewrite (Pos.iter_swap_gen _ _ Z.pos xO (Z.mul 2)) by done.
    apply iter_double.
Qed.

(** The sign of a difference of doubles. *)
Lemma SFsub_sign (ma mb : positive) (ea eb : Z) :
  bounded prec emax ma ea = true → bounded prec emax mb eb = true →
  SFltb (SF64sub (S754_finite false mb eb) (S754_finite false ma ea)) (S754_zero false)
  = SFltb (S754_finite false mb eb) (S754_finite false ma ea).
Proof.
  intros Ha Hb.
  pose proof (bounded_inv _ _ Ha) as [Hea _].
  pose proof (bounded_inv _ _ Hb) as [Heb _].
  unfold SFltb at 2.
  rewrite (SFcompare_value (S754_finite false mb eb) (S754_finite false ma ea)
             _ _ Hb Ha eq_refl eq_refl).
  unfold Qcompare. cbn [Qnum Qden cond_Zopp].
  rewrite Zcompare_mul_r by done.
  unfold SF64sub, SFsub. cbn [cond_Zopp].
  set (ez := Z.min eb ea).
  rewrite (shl_align_spec mb eb ez), (shl_align_spec ma ea ez) by lia.
  assert (Hcmp : (Z.pos mb * 2 ^ (eb + 1074) ?= Z.pos ma * 2 ^ (ea + 1074))%Z
                 = (Z.pos mb * 2 ^ (eb - ez) ?= Z.pos ma * 2 ^ (ea - ez))%Z).
  { rewrite <- (Zcompare_mul_r (Z.pos mb * 2 ^ (eb - ez)) _ (2 ^ (ez + 1074)))
      by (apply Z.pow_pos_nonneg; lia).
    rewrite <- !Z.mul_assoc, <- !Z.pow_add_r by lia.
    by replace (eb - ez + (ez + 1074))%Z with (eb + 1074)%Z by lia;
       replace (ea - ez + (ez + 1074))%Z with (ea + 1074)%Z by lia. }
  rewrite Hcmp. clear Hcmp.
  generalize (Z.pos mb * 2 ^ (eb - ez))%Z (Z.pos ma * 2 ^ (ea - ez))%Z. intros zb za.
  assert (Hround : ∀ sx p,
            (∃ m' e', binary_round prec emax sx p ez = S754_finite sx m' e')
            ∨ binary_round prec emax sx p ez = S754_infinity sx).
  { intros sx p. unfold binary_round.
    destruct (shl_align p ez _) as [mz ez'] eqn:Halign.
    apply binary_round_aux_sign.
    unfold shl_align in Halign.
    destruct (fexp prec emax (Z.pos (digits2_pos p) + ez) - ez)%Z eqn:Hf;
      injection Halign as <- <-; unfold fexp, emin, prec, emax in *; lia. }
  unfold binary_normalize.
  destruct (Z.compare_spec zb za) as [Heq|Hlt|Hgt].
  - by replace (zb - za)%Z with 0%Z by lia.
  - destruct (zb - za)%Z as [|p|p] eqn:Hd; [lia|lia|].
    by destruct (Hround true p) as [(m' & e' & ->)| ->].
  - destruct (zb - za)%Z as [|p|p] eqn:Hd; [lia| |lia].
    by destruct (Hround false p) as [(m' & e' & ->)| ->].
Qed.

(** A double that is greater than zero is a positive finite number or the
    positive infinity. *)
Lemma float_positive_inv (x : float) :
  (0 <? x)%float = true →
  (∃ m e, Prim2SF x = S754_finite false m e) ∨ Prim2SF x = S754_infinity false.
Proof.
  rewrite ltb_spec. change (Prim2SF 0) with (S754_zero false).
  unfold SFltb. destruct (Prim2SF x) as [s|[]| |[] m e]; try done.
  - by right.
  - left. by eexists _, _.
Qed.

(** On doubles greater than zero, the test [b - a < 0] of the sort
    comparators is the test [b < a]. *)
Lemma float_sub_ltb (a b : float) :
  (0 <? a)%float = true → (0 <? b)%float = true →
  (b - a <? 0)%float = (b <? a)%float.
Proof.
  intros Ha Hb. rewrite !ltb_spec, sub_spec.
  change (Prim2SF 0) with (S754_zero false).
  pose proof (Prim2SF_valid a) as Hva. pose proof (Prim2SF_valid b) as Hvb.
  destruct (float_positive_inv a Ha) as [(ma & ea & Ea)|Ea];
    destruct (float_positive_inv b Hb) as [(mb & eb & Eb)|Eb];
    rewrite Ea, Eb in *; try done.
  by apply SFsub_sign.
Qed.

Lemma float_ltb_value (x y : float) :
  (0 <? x)%float = true → (0 <? y)%float = true →
  (x <? y)%float = true ↔ valueLt (floatValue x) (floatValue y).
Proof.
  intros Hx Hy. rewrite ltb_spec. unfold floatValue, SFltb.
  pose proof (Prim2SF_valid x) as Hvx. pose proof (Prim2SF_valid y) as Hvy.
  destruct (float_positive_inv x Hx) as [(mx & ex & Ex)|Ex];
    destruct (float_positive_inv y Hy) as [(my & ey & Ey)|Ey];
    rewrite Ex, Ey in *; try done.
  rewrite (SFcompare_value _ _ _ _ Hvx Hvy eq_refl eq_refl).
  cbn [SFvalue valueLt]. rewrite Qlt_alt.
  by destruct (_ ?= _)%Q.
Qed.

Lemma float_leb_positive (x y : float) :
  (0 <? x)%float = true → (0 <? y)%float = true →
  (x <=? y)%float = true ↔ (y <? x)%float = false.
Proof.
  intros Hx Hy. rewrite ltb_spec, leb_spec. unfold SFltb, SFleb.
  pose proof (Prim2SF_valid x) as Hvx. pose proof (Prim2SF_valid y) as Hvy.
  destruct (float_positive_inv x Hx) as [(mx & ex & Ex)|Ex];
    destruct (float_positive_inv y Hy) as [(my & ey & Ey)|Ey];
    rewrite Ex, Ey in *; try done.
  rewrite (SFcompare_value _ _ _ _ Hvx Hvy eq_refl eq_refl).
  rewrite (SFcompare_value _ _ _ _ Hvy Hvx eq_refl eq_refl).
  cbn [SFvalue cond_Zopp].
  set (qx := (_ # _)). set (qy := (_ # _)).
  rewrite <- (Qcompare_antisym qx qy).
  by destruct (qx ?= qy)%Q.
Qed.

Lemma valueLt_asym (a b : option Q) : valueLt a b → ¬ valueLt b a.
Proof. destruct a as [x|], b as [y|]; simpl; try tauto. lra. Qed.

Lemma valueLt_negtrans (a b c : option Q) : valueLt a c → valueLt a b ∨ valueLt b c.
Proof.
  destruct a as [x|], b as [y|], c as [z|]; simpl; try tauto.
  intros Hxz. destruct (Qlt_le_dec x y) as [Hlt|Hle]; [by left|right; lra].
Qed.

Lemma float_ltb_asym (x y : float) :
  (0 <? x)%float = true → (0 <? y)%float = true →
  (x <? y)%float = true → (y <? x)%float = false.
Proof.
  intros Hx Hy Hxy. apply not_true_is_false. intros Hyx.
  apply (float_ltb_value x y Hx Hy) in Hxy. apply (float_ltb_value y x Hy Hx) in Hyx.
  by apply (valueLt_asym _ _ Hxy).
Qed.

Lemma float_ltb_negtrans (x y z : float) :
  (0 <? x)%float = true → (0 <? y)%float = true → (0 <? z)%float = true →
  (x <? z)%float = true → (x <? y)%float = true ∨ (y <? z)%float = true.
Proof.
  intros Hx Hy Hz Hxz. apply (float_ltb_value x z Hx Hz) in Hxz.
  destruct (valueLt_negtrans _ (floatValue y) _ Hxz) as [H1|H2].
  - left. by apply float_ltb_value.
  - right. by apply float_ltb_value.
Qed.

(** ** Scorer *)

Lemma Qltb_lt (a b : Q) : Qltb a b = true ↔ (a < b)%Q.
Proof.
  unfold Qltb. rewrite negb_true_iff. split.
  - intros Hb. apply Qnot_le_lt. intros Hle.
    apply Qle_bool_iff in Hle. congruence.
  - intros Hlt. destruct (Qle_bool b a) eqn:E; [|done].
    apply Qle_bool_iff in E. exfalso. by apply (Qlt_not_le a b).
Qed.

Lemma Qltb_ge (a b : Q) : Qltb a b = false ↔ (b <= a)%Q.
Proof.
  unfold Qltb. rewrite negb_false_iff. apply Qle_bool_iff.
Qed.

Lemma hasConsistencyBonus_cons {num : Type} (first : Tweet num) rest prev :
  hasConsistencyBonus (first :: rest) prev = true
  ↔ username first ≠ "" ∧ username first ∈ prev.
Proof.
  unfold hasConsistencyBonus.
  by rewrite andb_true_iff, !bool_decide_eq_true.
Qed.

Lemma calculateUserScore_inOrder {num : Type} `{JSNumber num} (ts : list (Tweet num)) prev :
  inOrder newerFirst ts →
  calculateUserScore ts prev
  = (scoreLoop 0 ts (nlit 0)
     * (if hasConsistencyBonus ts prev then nlit 1.25 else nlit 1))%num.
Proof.
  intros Hord. unfold calculateUserScore. by rewrite (sortWith_inOrder _ _ Hord).
Qed.







(** C1. The worked example of the specification: three records of user A,
    newest first, with (followers, likes, reposts) = (1000, 10, 5), (0, 1, 0)
    and (0, 0, 0).  [calculateUserScore] returns 64 when A is not in the
    prior-week set and 80 when it is, over exact rationals and bit for bit
    over binary64. *)
Theorem worked_example_scores
    (i0 i1 i2 x0 x1 x2 u0 u1 u2 : string) (c0 c1 c2 : Z) (prev : list string) :
  (c1 ≤ c0)%Z → (c2 ≤ c1)%Z →
  let recordsQ : list (Tweet Q) :=
    [mkTweet i0 "A" 1000%Q c0 10%Q 5%Q x0 u0;
     mkTweet i1 "A" 0%Q c1 1%Q 0%Q x1 u1;
     mkTweet i2 "A" 0%Q c2 0%Q 0%Q x2 u2] in
  let recordsF : list (Tweet float) :=
    [mkTweet i0 "A" 1000%float c0 10%float 5%float x0 u0;
     mkTweet i1 "A" 0%float c1 1%float 0%float x1 u1;
     mkTweet i2 "A" 0%float c2 0%float 0%float x2 u2] in
  ("A" ∉ prev →
     (calculateUserScore recordsQ prev == 64)%Q
     ∧ calculateUserScore recordsF prev = 64%float)
  ∧ ("A" ∈ prev →
     (calculateUserScore recordsQ prev == 80)%Q
     ∧ calculateUserScore recordsF prev = 80%float).
Proof.
  intros H10 H21 recordsQ recordsF.
  assert (HordQ : inOrder newerFirst recordsQ).
  { simpl. unfold newerFirst. simpl. rewrite !Z.ltb_ge. lia. }
  assert (HordF : inOrder newerFirst recordsF).
  { simpl. unfold newerFirst. simpl. rewrite !Z.ltb_ge. lia. }
  rewrite (calculateUserScore_inOrder recordsQ prev HordQ).
  rewrite (calculateUserScore_inOrder recordsF prev HordF).
  split; intros Hprev.
  - assert (hasConsistencyBonus recordsQ prev = false) as ->.
    { apply not_true_is_false. intros Hb.
      apply hasConsistencyBonus_cons in Hb. by destruct Hb. }
    assert (hasConsistencyBonus recordsF prev = false) as ->.
    { apply not_true_is_false. intros Hb.
      apply hasConsistencyBonus_cons in Hb. by destruct Hb. }
    split; vm_compute; reflexivity.
  - assert (hasConsistencyBonus recordsQ prev = true) as ->.
    { apply hasConsistencyBonus_cons. by split. }
    assert (hasConsistencyBonus recordsF prev = true) as ->.
    { apply hasConsistencyBonus_cons. by split. }
    split; vm_compute; reflexivity.
Qed.

Lemma worked_example_scores_witness :
  (calculateUserScore (num:=Q)
     [mkTweet "1" "A" 1000%Q 3000 10%Q 5%Q "a" "u1";
      mkTweet "2" "A" 0%Q 2000 1%Q 0%Q "b" "u2";
      mkTweet "3" "A" 0%Q 1000 0%Q 0%Q "c" "u3"] ["B"; "A"] == 80)%Q
  ∧ calculateUserScore (num:=float)
     [mkTweet "1" "A" 1000%float 3000 10%float 5%float "a" "u1";
      mkTweet "2" "A" 0%float 2000 1%float 0%float "b" "u2";
      mkTweet "3" "A" 0%float 1000 0%float 0%float "c" "u3"] ["B"; "A"] = 80%float.
Proof.
  refine (proj2 (worked_example_scores "1" "2" "3" "a" "b" "c" "u1" "u2" "u3"
                   3000 2000 1000 ["B"; "A"] _ _) _).
  - lia.
  - lia.
  - apply list_elem_of_In. simpl. auto.
Defined.

(** C2.  For a record list whose first record carries a non-empty handle, as
    every list passed to [calculateUserScore] does ([scored_groups_carry_handle]),
    the score with that handle in the prior-week set is exactly 1.25 times the
    score with the handle absent from it: it is the product of that score and
    1.25 in the arithmetic of the program, binary64. *)
Theorem consistency_bonus_factor (first : Tweet float) (rest : list (Tweet float))
    (prevIn prevOut : list string) :
  username first ≠ "" →
  username first ∈ prevIn →
  username first ∉ prevOut →
  calculateUserScore (first :: rest) prevIn
  = (calculateUserScore (first :: rest) prevOut * nlit 1.25)%num.
Proof.
  intros Hne Hin Hout. unfold calculateUserScore.
  assert (hasConsistencyBonus (first :: rest) prevIn = true) as ->.
  { apply hasConsistencyBonus_cons. by split. }
  assert (hasConsistencyBonus (first :: rest) prevOut = false) as ->.
  { apply not_true_is_false. intros Hb.
    apply hasConsistencyBonus_cons in Hb. by destruct Hb. }
  cbn [nmul float_number]. by rewrite float_one_literal, float_mul_1_r.
Qed.

(** A score that is not a multiple of a power of two: 18.6 rounds to the
    double 0x1.299999999999ap4, and its product with 1.25 to 23.25. *)
Lemma consistency_bonus_factor_witness :
  calculateUserScore [aliceMention] ["bob"] = 0x1.299999999999ap4%float
  ∧ calculateUserScore [aliceMention] ["alice"] = 23.25%float
  ∧ calculateUserScore [aliceMention] ["alice"]
    = (calculateUserScore [aliceMention] ["bob"] * nlit 1.25)%num.
Proof.
  split; [vm_compute; reflexivity|]. split; [vm_compute; reflexivity|].
  apply (consistency_bonus_factor aliceMention [] ["alice"] ["bob"]).
  - simpl. discriminate.
  - apply list_elem_of_In. simpl. auto.
  - intros Hin. apply list_elem_of_In in Hin. simpl in Hin.
    destruct Hin as [Heq|[]]. discriminate.
Defined.




(** ** Fetcher *)

Lemma id_processTweet {num : Type} `{JSNumber num} (allUsers : list (RawUser num))
    (allTweets : list (RawTweet num)) :
  id <$> (processTweet allUsers <$> allTweets) = tweet_id <$> allTweets.
Proof.
  rewrite <- list_fmap_compose. by apply list_fmap_ext.
Qed.

(** The page cap: when no page is left, [pageCount] is [maxPages - 1] on
    entry and the loop ends by its own condition after that page, whatever
    the continuation token. *)
Lemma fetchPages_last_page {num : Type} `{JSNumber num} (up : Upstream num) s e m
    token allTweets allUsers r :
  up maxPages (mkRequest s e m (if truthy token then token else None)) = Some r →
  fetchPages up s e m 0 (maxPages - 1) token allTweets allUsers
  = Some (allTweets ++ default [] (data r), allUsers ++ default [] (includes_users r)).
Proof.
  intros Hr. simpl. unfold maxPages in Hr. rewrite Hr.
  by rewrite andb_false_r.
Qed.






(** ** Merger *)

Lemma elem_of_newTweetsOf {num : Type} (data : StorageData num) fetched t :
  t ∈ newTweetsOf data fetched ↔ (id t ∉ id <$> tweets data) ∧ t ∈ fetched.
Proof.
  unfold newTweetsOf. rewrite list_elem_of_filter.
  by rewrite elem_of_list_to_set.
Qed.

Lemma filter_none {A : Type} (P : A → Prop) `{!∀ x, Decision (P x)} (l : list A) :
  (∀ x, x ∈ l → ¬ P x) → filter P l = [].
Proof.
  intros Hnone. destruct (filter P l) as [|x l'] eqn:E; [done|].
  assert (Hx : x ∈ filter P l) by (rewrite E; apply elem_of_cons; by left).
  apply list_elem_of_filter in Hx as [HP Hin]. by destruct (Hnone x Hin).
Qed.

(** C4, the failing run.  The upstream repeats tweet "1" on its second page;
    merging that batch into the empty store appends both copies, so the
    stored ids are not pairwise distinct. *)
Theorem merge_keeps_in_batch_duplicates :
  let fetched := fetchTwitterMentions repeatingUpstream (dayMs - 7 * dayMs) (dayMs - 30 * 1000) 100 in
  let stored := tweets (load (fetchAllMentionsHistorical repeatingEnv None)) in
  id <$> fetched = ["1"; "1"]
  ∧ id <$> stored = ["1"; "1"]
  ∧ ¬ NoDup (id <$> stored).
Proof.
  assert (Hids : id <$> tweets (load (fetchAllMentionsHistorical repeatingEnv None))
                 = ["1"; "1"]).
  { vm_compute. reflexivity. }
  simpl. split; [vm_compute; reflexivity|]. split; [exact Hids|].
  rewrite Hids. intros Hnd.
  apply NoDup_cons in Hnd as [Hnotin _]. apply Hnotin, list_elem_of_singleton. reflexivity.
Qed.

Lemma newTweetsOf_after_merge {num : Type} (data : StorageData num)
    (fetched : list (Tweet num)) (now : Z) :
  newTweetsOf (mergeTweets data fetched now) fetched = [].
Proof.
  unfold newTweetsOf. apply filter_none. intros t Ht Hfresh.
  apply Hfresh. apply elem_of_list_to_set.
  unfold mergeTweets. cbn [tweets]. rewrite fmap_app, elem_of_app.
  destruct (decide (id t ∈ id <$> tweets data)) as [Hold|Hnew]; [by left|].
  right. apply list_elem_of_fmap_2. by apply elem_of_newTweetsOf.
Qed.

(** C6.  Merging the same batch a second time appends nothing: every id of
    the batch is in the store after the first merge, so the record list is
    the one the first merge left. *)
Theorem merge_idempotent {num : Type} (data : StorageData num)
    (fetched : list (Tweet num)) (now1 now2 : Z) :
  let once := mergeTweets data fetched now1 in
  newTweetsOf once fetched = []
  ∧ tweets (mergeTweets once fetched now2) = tweets once.
Proof.
  intros once.
  pose proof (newTweetsOf_after_merge data fetched now1) as Hnone.
  fold once in Hnone. split; [exact Hnone|].
  unfold mergeTweets at 1. cbn [tweets]. rewrite Hnone. apply app_nil_r.
Qed.

(** ** Grouping by handle *)

Section ObjectFacts.
Context {V : Type}.
Implicit Types (obj : list (string * V)) (key : string).

Lemma ownProperty_Some key obj v : ownProperty key obj = Some v → (key, v) ∈ obj.
Proof.
  unfold ownProperty.
  destruct (List.find _ obj) as [[k w]|] eqn:E; simpl; [|done].
  intros [= <-]. apply find_some in E as [Hin Hk].
  apply bool_decide_eq_true in Hk. simpl in Hk. subst k.
  by apply list_elem_of_In.
Qed.

Lemma ownProperty_None key obj v : ownProperty key obj = None → (key, v) ∉ obj.
Proof.
  unfold ownProperty.
  destruct (List.find _ obj) as [[k w]|] eqn:E; simpl; [done|].
  intros _ Hin. apply list_elem_of_In in Hin.
  pose proof (find_none _ _ E _ Hin) as Hk. simpl in Hk.
  apply bool_decide_eq_false in Hk. by apply Hk.
Qed.

Lemma elem_of_objectEntries obj (kv : string * V) : kv ∈ objectEntries obj → kv ∈ obj.
Proof.
  unfold objectEntries. rewrite elem_of_app. intros [Hidx|Hrest].
  - apply list_elem_of_fmap in Hidx as ([n kv'] & -> & Hin).
    apply elem_of_sortWith in Hin.
    apply list_elem_of_omap in Hin as (kv0 & Hin0 & Heq).
    destruct (arrayIndex kv0.1); simpl in Heq; [|done].
    by injection Heq as _ <-.
  - by apply list_elem_of_filter in Hrest as [_ ?].
Qed.

End ObjectFacts.

Lemma pushTweet_grouped {num : Type} `{JSNumber num} (l : list (Tweet num)) obj t obj' :
  groupedBy l obj → pushTweet obj t = Some obj' → groupedBy (l ++ [t]) obj'.
Proof.
  intros [Hgroups Hkeys]. unfold pushTweet.
  destruct (ownProperty (username t) obj) as [old|] eqn:Hown.
  - intros [= <-]. apply ownProperty_Some in Hown. split.
    + intros k ts Hin. unfold updateProperty in Hin.
      apply list_elem_of_fmap in Hin as ([k0 ts0] & Heq & Hin0). simpl in Heq.
      destruct (Hgroups _ _ Hin0) as [Hts0 Hne]. rewrite filter_app.
      case_bool_decide as Hk; injection Heq as -> ->.
      * subst k0. rewrite <- Hts0. split; [|by destruct ts0].
        rewrite filter_cons, decide_True by done. done.
      * rewrite <- Hts0. split; [|done].
        rewrite filter_cons, decide_False by congruence. by rewrite app_nil_r.
    + intros t' Ht'. apply elem_of_app in Ht' as [Ht'|Ht'].
      * destruct (Hkeys _ Ht') as [ts Hts].
        exists (if bool_decide (username t' = username t) then ts ++ [t] else ts).
        unfold updateProperty. apply list_elem_of_fmap.
        exists (username t', ts). split; [|done]. simpl.
        by case_bool_decide.
      * apply list_elem_of_singleton in Ht' as ->.
        exists (old ++ [t]). unfold updateProperty. apply list_elem_of_fmap.
        exists (username t, old). split; [|done]. simpl.
        by rewrite bool_decide_eq_true_2.
  - case_bool_decide as Hproto; [done|]. intros [= <-]. split.
    + intros k ts Hin. rewrite filter_app. apply elem_of_app in Hin as [Hin|Hin].
      * destruct (Hgroups _ _ Hin) as [Hts Hne]. rewrite <- Hts. split; [|done].
        rewrite filter_cons, decide_False, app_nil_r; [done|].
        intros <-. by apply (ownProperty_None _ _ ts Hown).
      * apply list_elem_of_singleton in Hin. injection Hin as -> ->. split; [|done].
        rewrite filter_cons, decide_True by done.
        rewrite (filter_none (fun t0 => username t0 = username t) l); [done|].
        intros t' Ht' Heq. destruct (Hkeys _ Ht') as [ts Hts].
        rewrite Heq in Hts. by apply (ownProperty_None _ _ ts Hown).
    + intros t' Ht'. apply elem_of_app in Ht' as [Ht'|Ht'].
      * destruct (Hkeys _ Ht') as [ts Hts]. exists ts. apply elem_of_app. by left.
      * apply list_elem_of_singleton in Ht' as ->. exists [t].
        apply elem_of_app. right. by apply list_elem_of_singleton.
Qed.

Lemma groupByUser_grouped {num : Type} `{JSNumber num} (l : list (Tweet num)) obj :
  groupByUser l = Some obj → groupedBy l obj.
Proof.
  revert obj. induction l as [|t l IH] using rev_ind; intros obj.
  - intros [= <-]. split.
    + intros k ts Hin. by apply elem_of_nil in Hin.
    + intros t Ht. by apply elem_of_nil in Ht.
  - unfold groupByUser in *. rewrite foldl_snoc.
    destruct (foldl _ (Some []) l) as [obj0|]; simpl; [|done].
    intros Hpush. apply (pushTweet_grouped l obj0 t obj); [by apply IH|done].
Qed.

(** The only call of [calculateUserScore], in [scoreAndStore], is on the
    entries of [tweetsByUser]: each is a non-empty list of valid records, so
    its first record carries a handle that is neither empty nor ["unknown"]. *)
Lemma scored_groups_carry_handle {num : Type} `{JSNumber num} (l : list (Tweet num)) obj k ts :
  groupByUser (filter (fun t => isValidTweet t = true) l) = Some obj →
  (k, ts) ∈ objectEntries obj →
  ∃ first rest, ts = first :: rest ∧ username first = k ∧ k ≠ "" ∧ k ≠ "unknown".
Proof.
  intros Hgroup Hentry. apply elem_of_objectEntries in Hentry.
  apply groupByUser_grouped in Hgroup as [Hgroups _].
  destruct (Hgroups _ _ Hentry) as [Hts Hne].
  destruct ts as [|first rest]; [done|]. exists first, rest. split; [done|].
  assert (Hfirst : first ∈ first :: rest) by (apply elem_of_cons; by left).
  rewrite Hts in Hfirst. apply list_elem_of_filter in Hfirst as [Hname Hfirst].
  apply list_elem_of_filter in Hfirst as [Hvalid _].
  unfold isValidTweet in Hvalid. apply andb_true_iff in Hvalid as [Hu He].
  apply bool_decide_eq_true in Hu, He. rewrite Hname in Hu, He. done.
Qed.

(** ** Viral selection *)

Lemma foldl_moreViral_firstMaximal (rest l1 l2 : list (Tweet Q)) (best : Tweet Q) :
  (∀ x, x ∈ l1 → (viralScore x < viralScore best)%Q) →
  (∀ x, x ∈ l2 → (viralScore x <= viralScore best)%Q) →
  firstMaximal (l1 ++ best :: l2 ++ rest) (foldl moreViral best rest).
Proof.
  revert l1 l2 best. induction rest as [|c rest IH]; intros l1 l2 best Hlt Hle; simpl.
  - exists l1, l2. by rewrite app_nil_r.
  - unfold moreViral at 2. cbn [nlt Q_number].
    destruct (Qltb (viralScore best) (viralScore c)) eqn:Hcmp.
    + apply Qltb_lt in Hcmp.
      replace (l1 ++ best :: l2 ++ c :: rest)
        with ((l1 ++ best :: l2) ++ c :: [] ++ rest)
        by (by rewrite <- app_assoc).
      apply IH.
      * intros x Hx. apply elem_of_app in Hx as [Hx|Hx].
        -- specialize (Hlt x Hx). lra.
        -- apply elem_of_cons in Hx as [->|Hx]; [done|].
           specialize (Hle x Hx). lra.
      * intros x Hx. by apply elem_of_nil in Hx.
    + apply Qltb_ge in Hcmp.
      replace (l1 ++ best :: l2 ++ c :: rest)
        with (l1 ++ best :: (l2 ++ [c]) ++ rest)
        by (by rewrite <- (app_assoc l2)).
      apply IH; [done|].
      intros x Hx. apply elem_of_app in Hx as [Hx|Hx]; [by apply Hle|].
      by apply list_elem_of_singleton in Hx as ->.
Qed.

Lemma reduce_moreViral_firstMaximal (first : Tweet Q) (rest : list (Tweet Q)) :
  firstMaximal (first :: rest) (foldl moreViral first rest).
Proof.
  apply (foldl_moreViral_firstMaximal rest [] [] first).
  - intros x Hx. by apply elem_of_nil in Hx.
  - intros x Hx. by apply elem_of_nil in Hx.
Qed.

Lemma firstMaximal_elem_of l t : firstMaximal l t → t ∈ l.
Proof.
  intros (l1 & l2 & -> & _). apply elem_of_app. right. apply elem_of_cons. by left.
Qed.

Lemma firstMaximal_upper_bound l t x :
  firstMaximal l t → x ∈ l → (viralScore x <= viralScore t)%Q.
Proof.
  intros (l1 & l2 & -> & Hlt & Hle) Hx.
  apply elem_of_app in Hx as [Hx|Hx]; [specialize (Hlt x Hx); lra|].
  apply elem_of_cons in Hx as [->|Hx]; [lra|by apply Hle].
Qed.

(** ** Aggregator *)

Lemma buildLeaderboard_Built {num : Type} `{JSNumber num}
    (cur prev : list (Tweet num)) wk now lb :
  buildLeaderboard cur prev wk now = Built lb →
  ∃ first rest obj,
    cur = first :: rest
    ∧ groupByUser (filter (fun t => isValidTweet t = true) cur) = Some obj
    ∧ mostViralTweet lb = foldl moreViral first rest
    ∧ week lb = wk
    ∧ users lb
      = sortWith higherScoreFirst
          (filter (fun stat => nlt (nlit 0) (totalScore stat) = true)
             (omap (statsOf (uniqueValues [] (username <$> prev))) (objectEntries obj))).
Proof.
  unfold buildLeaderboard. case_bool_decide as Hlen; [done|].
  destruct (groupByUser _) as [obj|]; [|done].
  intros [= <-]. destruct cur as [|first rest]; [done|].
  by exists first, rest, obj.
Qed.

(** What the code stores for each ranked user: the group is the user's valid
    records of the window in store order, [topTweet] is the [reduce] over it
    and [lastActive] is the [created_at] of its first record. *)
Lemma users_from_groups {num : Type} `{JSNumber num}
    (cur prev : list (Tweet num)) wk now lb st :
  buildLeaderboard cur prev wk now = Built lb →
  st ∈ users lb →
  ∃ first rest,
    filter (fun t => username t = stats_username st)
           (filter (fun t => isValidTweet t = true) cur) = first :: rest
    ∧ topTweet st = foldl moreViral first rest
    ∧ lastActive st = created_at first
    ∧ tweetCount st = length (first :: rest).
Proof.
  intros Hbuilt Hst.
  apply buildLeaderboard_Built in Hbuilt as (f0 & r0 & obj & _ & Hgroup & _ & _ & Husers).
  rewrite Husers in Hst. apply elem_of_sortWith in Hst.
  apply list_elem_of_filter in Hst as [_ Hst].
  apply list_elem_of_omap in Hst as ([k ts] & Hentry & Hstats).
  apply elem_of_objectEntries in Hentry.
  apply groupByUser_grouped in Hgroup as [Hgroups _].
  destruct (Hgroups _ _ Hentry) as [Hts _].
  simpl in Hstats. destruct ts as [|first rest]; [done|].
  injection Hstats as <-. simpl. by exists first, rest.
Qed.

(** C7, the failing run.  Tweet "1" is stored by a first fetch and the newer
    tweet "2" of the same user by a later one.  The snapshot then reports the
    [created_at] of tweet "1", the first record of the group in store order,
    as [lastActive], not that of the most recent record. *)
Theorem lastActive_is_first_stored_record :
  let disk :=
    fetchAllMentionsHistorical secondFetchEnv
      (fetchAllMentionsHistorical firstFetchEnv None) in
  let window := getWeeklyTweets disk dayMs 0 in
  (fun t => (id t, username t, created_at t)) <$> window
  = [("1", "alice", 1000%Z); ("2", "alice", 2000%Z)]
  ∧ (fun lb => (fun st => (stats_username st, lastActive st)) <$> users lb)
      <$> leaderboards (load disk)
    = [[("alice", 1000%Z)]].
Proof.
  split; vm_compute; reflexivity.
Qed.

Lemma lastN_short {A : Type} (n : nat) (l : list A) : (length l ≤ n)%nat → lastN n l = l.
Proof.
  intros Hlen. unfold lastN. by replace (length l - n)%nat with 0%nat by lia.
Qed.

Lemma length_lastN {A : Type} (n : nat) (l : list A) : (length (lastN n l) ≤ n)%nat.
Proof. unfold lastN. rewrite length_drop. lia. Qed.

Lemma storeLeaderboard_snapshotsOk {num : Type} `{JSNumber num}
    (lb : LeaderboardData num) (data : StorageData num) :
  NoDup (week <$> leaderboards data) →
  snapshotsOk (leaderboards (storeLeaderboard lb data)).
Proof.
  intros Hnd. unfold storeLeaderboard. cbn [leaderboards]. split; [|apply length_lastN].
  unfold lastN. rewrite fmap_drop.
  eapply sublist_NoDup; [|apply sublist_drop].
  destruct (list_find _ (leaderboards data)) as [[i old]|] eqn:Hfind.
  - apply list_find_Some in Hfind as (Hi & Hweek & _).
    rewrite list_fmap_insert, list_insert_id; [done|].
    by rewrite list_lookup_fmap, Hi, <- Hweek.
  - apply list_find_None in Hfind. rewrite fmap_app. apply NoDup_app.
    split; [done|]. split; [|apply NoDup_singleton].
    intros wk Hwk Hnew. apply list_elem_of_singleton in Hnew as ->.
    apply list_elem_of_fmap in Hwk as (old & Heq & Hold).
    rewrite Forall_forall in Hfind. by apply (Hfind old Hold).
Qed.

Lemma scoreAndStore_snapshotsOk {num : Type} `{JSNumber num}
    (env : ScoreEnv) (disk : Disk num) :
  snapshotsOk (leaderboards (load disk)) →
  snapshotsOk (leaderboards (load (scoreAndStore env disk))).
Proof.
  intros [Hnd Hlen]. unfold scoreAndStore.
  destruct (leaderboardOf env disk) as [| |lb]; [done|done|].
  unfold save. destruct (write_ok env); [|done].
  by apply storeLeaderboard_snapshotsOk.
Qed.

Lemma merge_step_snapshotsOk {num : Type} `{JSNumber num} (ok : bool)
    (fetched : list (Tweet num)) (now : Z) (disk : Disk num) :
  snapshotsOk (leaderboards (load disk)) →
  snapshotsOk (leaderboards (load (save ok (mergeTweets (load disk) fetched now) disk))).
Proof. intros Hok. unfold save. by destruct ok. Qed.

(** C8.  One aggregation cycle keeps the snapshot list free of repeated week
    keys and at most 8 long.  When the cycle writes a snapshot, the list holds
    it afterwards: it replaces the snapshot of the same week at its index, the
    others staying where they are; otherwise it is appended and the list loses
    its oldest entries, from the front, down to 8. *)
Theorem snapshots_unique_and_bounded {num : Type} `{JSNumber num}
    (env : ScoreEnv) (disk : Disk num) :
  snapshotsOk (leaderboards (load disk)) →
  let before := leaderboards (load disk) in
  let after := leaderboards (load (scoreAndStore env disk)) in
  snapshotsOk after
  ∧ ∀ lb, leaderboardOf env disk = Built lb → write_ok env = true →
      lb ∈ after
      ∧ match list_find (fun l => week l = week lb) before with
        | Some (existingIndex, _) => after = <[existingIndex := lb]> before
        | None => after = drop (S (length before) - 8) (before ++ [lb])
        end.
Proof.
  intros [Hnd Hlen] before after. subst before after. unfold scoreAndStore.
  destruct (leaderboardOf env disk) as [| |lb0] eqn:Hout.
  - split; [done|]. intros lb [=].
  - split; [done|]. intros lb [=].
  - unfold save. destruct (write_ok env) eqn:Hok.
    + split.
      * by apply storeLeaderboard_snapshotsOk.
      * intros lb [= <-] _.
        change (load (Some ?d)) with d.
        unfold storeLeaderboard. cbn [leaderboards].
        destruct (list_find _ (leaderboards (load disk))) as [[i old]|] eqn:Hfind.
        -- rewrite lastN_short by (by rewrite length_insert).
           split; [|done]. apply list_elem_of_insert.
           apply list_find_Some in Hfind as (Hi & _). by apply lookup_lt_Some in Hi.
        -- unfold lastN. rewrite length_app. simpl.
           replace (length (leaderboards (load disk)) + 1 - 8)%nat
             with (S (length (leaderboards (load disk))) - 8)%nat by lia.
           split; [|done]. rewrite drop_app_le by lia.
           apply elem_of_app. right. by apply list_elem_of_singleton.
    + split; [done|]. intros lb _ [=].
Qed.

(** Two runs on [rankedDisk]'s records.  With the snapshot of the week
    already stored as the second of three, it is replaced where it stands;
    with eight snapshots of earlier weeks, the new one is appended and the
    oldest one dropped. *)
Lemma snapshots_unique_and_bounded_witness :
  (∃ lb, leaderboardOf sampleScoreEnv staleDisk = Built lb
         ∧ stats_username <$> users lb = ["carol"; "dave"]
         ∧ leaderboards (load (scoreAndStore sampleScoreEnv staleDisk))
           = [emptySnapshot "1969-12-14"; lb; earlierSnapshot])
  ∧ (∃ lb, leaderboardOf sampleScoreEnv fullDisk = Built lb
           ∧ stats_username <$> users lb = ["carol"; "dave"]
           ∧ leaderboards (load (scoreAndStore sampleScoreEnv fullDisk))
             = (emptySnapshot <$> ["1969-11-09"; "1969-11-16"; "1969-11-23"; "1969-11-30";
                                   "1969-12-07"; "1969-12-14"; "1969-12-21"]) ++ [lb]).
Proof.
  assert (Hstale : snapshotsOk (leaderboards (load staleDisk))).
  { split; [|simpl; lia]. refine (bool_decide_unpack _ _). vm_compute. exact I. }
  assert (Hfull : snapshotsOk (leaderboards (load fullDisk))).
  { split; [|simpl; lia]. refine (bool_decide_unpack _ _). vm_compute. exact I. }
  split.
  - eexists. split; [vm_compute; reflexivity|]. split; [reflexivity|].
    match goal with
    | |- _ = [_; ?lb; _] =>
        exact (proj2 (proj2 (@snapshots_unique_and_bounded Q Q_number sampleScoreEnv
                               staleDisk Hstale)
                        lb ltac:(vm_compute; reflexivity) eq_refl))
    end.
  - eexists. split; [vm_compute; reflexivity|]. split; [reflexivity|].
    match goal with
    | |- _ = _ ++ [?lb] =>
        exact (proj2 (proj2 (@snapshots_unique_and_bounded Q Q_number sampleScoreEnv
                               fullDisk Hfull)
                        lb ltac:(vm_compute; reflexivity) eq_refl))
    end.
Defined.

(** C9.  The most viral record of a snapshot is taken from the whole window
    of the current week, whatever the handle of its author and whether or not
    that author is ranked: it belongs to the window, no record of the window
    has a larger [likes + 2 * retweets], and a record of the window that is
    the only one to reach the maximum is the one selected. *)
Theorem most_viral_over_whole_window (env : ScoreEnv) (disk : Disk Q)
    (lb : LeaderboardData Q) :
  leaderboardOf env disk = Built lb →
  let window := getWeeklyTweets disk (now_current env) 0 in
  mostViralTweet lb ∈ window
  ∧ (∀ t, t ∈ window → (viralScore t <= viralScore (mostViralTweet lb))%Q)
  ∧ (∀ t, t ∈ window →
       (∀ t', t' ∈ window → (viralScore t <= viralScore t')%Q → t' = t) →
       mostViralTweet lb = t).
Proof.
  intros Hbuilt window. unfold leaderboardOf in Hbuilt. fold window in Hbuilt.
  apply buildLeaderboard_Built in Hbuilt as (first & rest & obj & Hwin & _ & Hmv & _).
  pose proof (reduce_moreViral_firstMaximal first rest) as Hmax.
  rewrite <- Hmv, <- Hwin in Hmax.
  split; [by apply firstMaximal_elem_of|].
  split; [intros t Ht; by apply (firstMaximal_upper_bound window)|].
  intros t Ht Honly. apply Honly.
  - by apply firstMaximal_elem_of.
  - by apply (firstMaximal_upper_bound window).
Qed.

(** The selected record belongs to a user who is not ranked. *)
Lemma most_viral_over_whole_window_witness :
  ∃ lb, leaderboardOf sampleScoreEnv silentDisk = Built lb
        ∧ users lb = []
        ∧ mostViralTweet lb = silentTweet
        ∧ mostViralTweet lb ∈ getWeeklyTweets silentDisk dayMs 0.
Proof.
  eexists. split; [vm_compute; reflexivity|].
  split; [reflexivity|]. split; [reflexivity|].
  refine (proj1 (most_viral_over_whole_window sampleScoreEnv silentDisk _ _)).
  vm_compute. reflexivity.
Defined.

(** ** Further properties of the store *)

(** Every store the program can leave on disk, starting without a file, has
    at most one snapshot per week key and at most 8 snapshots. *)
Theorem reachable_snapshotsOk {num : Type} `{JSNumber num} (disk : Disk num) :
  reachable disk → snapshotsOk (leaderboards (load disk)).
Proof.
  induction 1 as [|env disk _ IH|env disk _ IH|env disk _ IH].
  - split; [apply NoDup_nil_2|simpl; lia].
  - by apply scoreAndStore_snapshotsOk.
  - unfold fetchAllMentionsHistorical.
    destruct (0 <? length _)%nat.
    + by apply scoreAndStore_snapshotsOk, merge_step_snapshotsOk.
    + by apply merge_step_snapshotsOk.
  - unfold fetchLatestMentionsLive.
    destruct (0 <? length _)%nat.
    + by apply scoreAndStore_snapshotsOk, merge_step_snapshotsOk.
    + by apply merge_step_snapshotsOk.
Qed.

Lemma reachable_snapshotsOk_witness :
  snapshotsOk
    (leaderboards
       (load (fetchAllMentionsHistorical secondFetchEnv
                (fetchAllMentionsHistorical firstFetchEnv None)))).
Proof.
  apply (reachable_snapshotsOk
           (fetchAllMentionsHistorical secondFetchEnv
              (fetchAllMentionsHistorical firstFetchEnv None))).
  apply reach_historical, reach_historical, reach_absent.
Defined.

Lemma scoreAndStore_tweets {num : Type} `{JSNumber num} (env : ScoreEnv) (disk : Disk num) :
  tweets (load (scoreAndStore env disk)) = tweets (load disk).
Proof.
  unfold scoreAndStore. destruct (leaderboardOf env disk); [done|done|].
  unfold save. by destruct (write_ok env).
Qed.

Lemma fetchAllMentionsHistorical_tweets {num : Type} `{JSNumber num}
    (env : FetchEnv num) (disk : Disk num) :
  let fetched :=
    fetchTwitterMentions (upstream env) (fetch_now env - 7 * dayMs)
                         (fetch_now env - 30 * 1000) 100 in
  tweets (load (fetchAllMentionsHistorical env disk))
  = if fetch_write_ok env
    then tweets (load disk) ++ newTweetsOf (load disk) fetched
    else tweets (load disk).
Proof.
  intros fetched. unfold fetchAllMentionsHistorical. fold fetched.
  assert (Hsaved :
    tweets (load (save (fetch_write_ok env)
                       (mergeTweets (load disk) fetched (stamp_now env)) disk))
    = if fetch_write_ok env
      then tweets (load disk) ++ newTweetsOf (load disk) fetched
      else tweets (load disk)).
  { unfold save. by destruct (fetch_write_ok env). }
  destruct (0 <? length _)%nat; [|done].
  by rewrite scoreAndStore_tweets.
Qed.

(** Two [fetchAllMentionsHistorical] cycles that fetch the same batch leave
    the records the first cycle left, once the first cycle's write went
    through; the aggregation a cycle triggers does not touch the records. *)
Theorem refetch_same_batch_keeps_records {num : Type} `{JSNumber num}
    (env1 env2 : FetchEnv num) (disk : Disk num) :
  fetch_write_ok env1 = true →
  fetchTwitterMentions (upstream env2) (fetch_now env2 - 7 * dayMs)
                       (fetch_now env2 - 30 * 1000) 100
  = fetchTwitterMentions (upstream env1) (fetch_now env1 - 7 * dayMs)
                         (fetch_now env1 - 30 * 1000) 100 →
  tweets (load (fetchAllMentionsHistorical env2 (fetchAllMentionsHistorical env1 disk)))
  = tweets (load (fetchAllMentionsHistorical env1 disk)).
Proof.
  intros Hok Hsame.
  rewrite (fetchAllMentionsHistorical_tweets env2). rewrite Hsame.
  set (fetched := fetchTwitterMentions (upstream env1) _ _ 100).
  destruct (fetch_write_ok env2); [|done].
  assert (Hempty : newTweetsOf (load (fetchAllMentionsHistorical env1 disk)) fetched = []).
  { pose proof (fetchAllMentionsHistorical_tweets env1 disk) as Hfirst.
    simpl in Hfirst. fold fetched in Hfirst. rewrite Hok in Hfirst.
    pose proof (newTweetsOf_after_merge (load disk) fetched 0) as Hnone.
    unfold newTweetsOf in *. cbn [tweets mergeTweets] in Hnone.
    unfold newTweetsOf in Hnone. by rewrite Hfirst. }
  rewrite Hempty. apply app_nil_r.
Qed.

Lemma refetch_same_batch_witness :
  tweets (load (fetchAllMentionsHistorical repeatingEnv
                  (fetchAllMentionsHistorical repeatingEnv None)))
  = tweets (load (fetchAllMentionsHistorical repeatingEnv None)).
Proof.
  apply (refetch_same_batch_keeps_records repeatingEnv repeatingEnv None).
  - reflexivity.
  - reflexivity.
Defined.

(** A batch with pairwise distinct ids, merged into a store with pairwise
    distinct ids, leaves a store with pairwise distinct ids. *)
Theorem merge_distinct_batch_keeps_ids_distinct {num : Type}
    (data : StorageData num) (fetched : list (Tweet num)) (now : Z) :
  NoDup (id <$> tweets data) →
  NoDup (id <$> fetched) →
  NoDup (id <$> tweets (mergeTweets data fetched now)).
Proof.
  intros Hstore Hbatch. simpl. rewrite fmap_app. apply NoDup_app.
  split; [done|]. split.
  - intros i Hi Hnew. apply list_elem_of_fmap in Hnew as (t & -> & Ht).
    apply elem_of_newTweetsOf in Ht as [Hfresh _]. by apply Hfresh.
  - apply (sublist_NoDup _ (id <$> fetched)); [done|].
    apply fmap_sublist. unfold newTweetsOf. apply sublist_filter.
Qed.

Lemma merge_distinct_batch_witness :
  NoDup (id <$> tweets (mergeTweets (mkStorageData [silentTweet] 0 [])
                          (fetchTwitterMentions distinctUpstream 0 1 100) 5)).
Proof.
  apply (merge_distinct_batch_keeps_ids_distinct
           (mkStorageData [silentTweet] 0 [])
           (fetchTwitterMentions distinctUpstream 0 1 100) 5).
  - simpl. apply NoDup_singleton.
  - vm_compute. apply NoDup_cons. split.
    + intros Hin. apply list_elem_of_singleton in Hin. discriminate.
    + apply NoDup_singleton.
Defined.

(** In every snapshot, [lastActive] of a ranked user is the [created_at] of
    the first of the user's valid records of the window, in store order. *)
Theorem lastActive_first_of_group {num : Type} `{JSNumber num}
    (env : ScoreEnv) (disk : Disk num) (lb : LeaderboardData num) (st : UserStats num) :
  leaderboardOf env disk = Built lb →
  st ∈ users lb →
  (created_at <$> head (filter (fun t => username t = stats_username st)
                          (filter (fun t => isValidTweet t = true)
                             (getWeeklyTweets disk (now_current env) 0))))
  = Some (lastActive st).
Proof.
  intros Hbuilt Hst. unfold leaderboardOf in Hbuilt.
  destruct (users_from_groups _ _ _ _ _ _ Hbuilt Hst) as (first & rest & -> & _ & -> & _).
  reflexivity.
Qed.

Lemma lastActive_first_of_group_witness :
  ∃ lb st,
    leaderboardOf sampleScoreEnv
      (fetchAllMentionsHistorical secondFetchEnv
         (fetchAllMentionsHistorical firstFetchEnv None)) = Built lb
    ∧ users lb = [st]
    ∧ lastActive st = 1000%Z.
Proof.
  eexists _, _. split; [vm_compute; reflexivity|]. split; [reflexivity|].
  apply (inj Some).
  refine (eq_trans (eq_sym (lastActive_first_of_group sampleScoreEnv
            (fetchAllMentionsHistorical secondFetchEnv
               (fetchAllMentionsHistorical firstFetchEnv None)) _ _ _ _)) _).
  - vm_compute. reflexivity.
  - apply list_elem_of_here.
  - vm_compute. reflexivity.
Defined.

(** ** The ranking of a snapshot *)

Section RankingFacts.
Context {A : Type} (before : A -> A -> bool) (P : A → Prop).
Hypothesis before_asym : ∀ x y, P x → P y → before x y = true → before y x = false.
Hypothesis before_negtrans :
  ∀ x y z, P x → P y → P z → before x z = true → before x y = true ∨ before y z = true.

Lemma insertSorted_StronglySorted x l :
  P x → Forall P l →
  StronglySorted (fun a b => before b a = false) l →
  StronglySorted (fun a b => before b a = false) (insertSorted before x l).
Proof.
  intros Hx. induction l as [|y l IH]; intros HP Hsorted; simpl.
  - repeat constructor.
  - apply Forall_cons in HP as [Hy HP].
    apply StronglySorted_inv in Hsorted as [Hl Hyl].
    destruct (before y x) eqn:Hyx.
    + constructor; [by apply IH|].
      rewrite insertSorted_perm. constructor; [by apply before_asym|done].
    + constructor; [by constructor|].
      constructor; [done|].
      rewrite Forall_forall in Hyl, HP |- *. intros z Hz.
      destruct (before z x) eqn:Hzx; [|done].
      destruct (before_negtrans z y x (HP z Hz) Hy Hx Hzx) as [Hzy|Hyx']; [|congruence].
      specialize (Hyl z Hz). simpl in Hyl. congruence.
Qed.

Lemma sortWith_StronglySorted l :
  Forall P l → StronglySorted (fun a b => before b a = false) (sortWith before l).
Proof.
  induction l as [|x l IH]; intros HP; simpl; [constructor|].
  apply Forall_cons in HP as [Hx HP].
  apply insertSorted_StronglySorted; [done| |by apply IH].
  by rewrite sortWith_perm.
Qed.

Lemma StronglySorted_rankedBy l :
  StronglySorted (fun a b => before b a = false) l → rankedBy before l.
Proof.
  induction 1 as [|x l _ IH Hx]; intros i j a b Hij Hi Hj.
  - by rewrite lookup_nil in Hi.
  - destruct j as [|j]; [lia|]. simpl in Hj. destruct i as [|i]; simpl in Hi.
    + injection Hi as <-. rewrite Forall_forall in Hx.
      apply Hx. by eapply list_elem_of_lookup_2.
    + apply (IH i j); [lia|done|done].
Qed.

Lemma sortWith_rankedBy l : Forall P l → rankedBy before (sortWith before l).
Proof. intros HP. by apply StronglySorted_rankedBy, sortWith_StronglySorted. Qed.

End RankingFacts.

(** On positive scores the comparator of the ranking is the test
    [b.totalScore < a.totalScore]. *)
Lemma higherScoreFirst_ltb (a b : UserStats float) :
  (0 <? totalScore a)%float = true → (0 <? totalScore b)%float = true →
  higherScoreFirst a b = (totalScore b <? totalScore a)%float.
Proof.
  intros Ha Hb. unfold higherScoreFirst. cbn [nlt nsub float_number].
  rewrite float_zero_literal. by apply float_sub_ltb.
Qed.

(** In every snapshot the users are in descending order of score: a user
    listed later never has a larger [totalScore] than one listed earlier, and
    every listed score is greater than zero.  Over binary64. *)
Theorem ranked_users_descending (env : ScoreEnv) (disk : Disk float)
    (lb : LeaderboardData float) :
  leaderboardOf env disk = Built lb →
  (∀ i j a b, (i < j)%nat → users lb !! i = Some a → users lb !! j = Some b →
              (totalScore b <=? totalScore a)%float = true)
  ∧ (∀ st, st ∈ users lb → (0 <? totalScore st)%float = true).
Proof.
  intros Hbuilt. unfold leaderboardOf in Hbuilt.
  apply buildLeaderboard_Built in Hbuilt as (_ & _ & obj & _ & _ & _ & _ & Husers).
  cbn [nlt float_number] in Husers. rewrite float_zero_literal in Husers.
  set (stats := omap _ _) in Husers.
  assert (Hpos : ∀ st, st ∈ users lb → (0 <? totalScore st)%float = true).
  { intros st Hst. rewrite Husers in Hst. apply elem_of_sortWith in Hst.
    by apply list_elem_of_filter in Hst as [Hpos _]. }
  split; [|done].
  intros i j a b Hij Hi Hj.
  assert (Ha : (0 <? totalScore a)%float = true)
    by (apply Hpos; by eapply list_elem_of_lookup_2).
  assert (Hb : (0 <? totalScore b)%float = true)
    by (apply Hpos; by eapply list_elem_of_lookup_2).
  apply (float_leb_positive _ _ Hb Ha).
  rewrite <- (higherScoreFirst_ltb b a Hb Ha).
  rewrite Husers in Hi, Hj.
  refine (sortWith_rankedBy higherScoreFirst
            (fun st => (0 <? totalScore st)%float = true) _ _ _ _ i j a b Hij Hi Hj).
  - intros x y Hx Hy. rewrite !higherScoreFirst_ltb by done. by apply float_ltb_asym.
  - intros x y z Hx Hy Hz. rewrite !higherScoreFirst_ltb by done.
    intros Hxz. destruct (float_ltb_negtrans _ (totalScore y) _ Hz Hy Hx Hxz); auto.
  - apply Forall_forall. intros st Hst. by apply list_elem_of_filter in Hst as [? _].
Qed.

Lemma snd_indexed_entries {V : Type} (obj : list (string * V)) :
  snd <$> omap (fun kv => n ← arrayIndex kv.1; Some (n, kv)) obj
  = filter (fun kv => ¬ arrayIndex kv.1 = None) obj.
Proof.
  induction obj as [|kv obj IH]; [done|].
  rewrite filter_cons. cbn [omap list_omap].
  destruct (decide (¬ arrayIndex kv.1 = None)) as [Hidx|Hnone].
  - destruct (arrayIndex kv.1) as [n|]; [|done]. simpl. f_equal. exact IH.
  - destruct (arrayIndex kv.1) as [n|]; [by destruct Hnone|]. simpl. exact IH.
Qed.

(** [Object.entries] lists every own property once. *)
Lemma objectEntries_perm {V : Type} (obj : list (string * V)) : objectEntries obj ≡ₚ obj.
Proof.
  unfold objectEntries. rewrite sortWith_perm, snd_indexed_entries.
  rewrite Permutation_app_comm. apply filter_app_complement.
Qed.

Lemma fst_updateProperty {V : Type} key (f : V -> V) (obj : list (string * V)) :
  (updateProperty key f obj).*1 = obj.*1.
Proof.
  unfold updateProperty. rewrite <- list_fmap_compose. apply list_fmap_ext.
  intros i [k v] _. simpl. by case_bool_decide.
Qed.

Lemma ownProperty_None_key {V : Type} key (obj : list (string * V)) :
  ownProperty key obj = None → key ∉ obj.*1.
Proof.
  intros Hown Hin. apply list_elem_of_fmap in Hin as ([k v] & -> & Hin).
  by apply (ownProperty_None _ _ v Hown).
Qed.

(** The keys of [tweetsByUser] are pairwise distinct, and none of them is the
    name of a member of [Object.prototype]. *)
Lemma groupByUser_keys {num : Type} `{JSNumber num} (l : list (Tweet num)) obj :
  groupByUser l = Some obj →
  NoDup obj.*1 ∧ ∀ k, k ∈ obj.*1 → k ∉ objectPrototypeKeys.
Proof.
  revert obj. induction l as [|t l IH] using rev_ind; intros obj.
  - intros [= <-]. split; [constructor|]. intros k Hk. by apply elem_of_nil in Hk.
  - unfold groupByUser in *. rewrite foldl_snoc.
    destruct (foldl _ (Some []) l) as [obj0|]; simpl; [|done].
    destruct (IH obj0 eq_refl) as [Hnd Hsafe]. unfold pushTweet.
    destruct (ownProperty (username t) obj0) eqn:Hown.
    + intros [= <-]. by rewrite fst_updateProperty.
    + case_bool_decide as Hproto; [done|]. intros [= <-].
      rewrite fmap_app. simpl. split.
      * apply NoDup_app. split; [done|]. split; [|apply NoDup_singleton].
        intros k Hk Hnew. apply list_elem_of_singleton in Hnew as ->.
        by apply (ownProperty_None_key _ _ Hown).
      * intros k Hk. apply elem_of_app in Hk as [Hk|Hk]; [by apply Hsafe|].
        by apply list_elem_of_singleton in Hk as ->.
Qed.

Lemma statsOf_Some {num : Type} `{JSNumber num} prev k (ts : list (Tweet num)) st :
  statsOf prev (k, ts) = Some st →
  ts ≠ [] ∧ stats_username st = k
  ∧ totalScore st = calculateUserScore ts prev
  ∧ tweetCount st = length ts.
Proof.
  simpl. destruct ts as [|first rest]; [done|]. by intros [= <-].
Qed.

Lemma statsOf_names {num : Type} `{JSNumber num} prev
    (entries : list (string * list (Tweet num))) :
  stats_username <$> omap (statsOf prev) entries `sublist_of` entries.*1.
Proof.
  induction entries as [|[k ts] entries IH]; [done|].
  simpl. destruct ts as [|first rest]; simpl.
  - by apply sublist_cons.
  - by apply sublist_skip.
Qed.

(** The link between a ranked user and the group the entry was built from. *)
Lemma users_entry {num : Type} `{JSNumber num} (cur prev : list (Tweet num)) wk now lb :
  buildLeaderboard cur prev wk now = Built lb →
  NoDup (stats_username <$> users lb)
  ∧ ∀ st, st ∈ users lb ↔
      userGroup cur (stats_username st) ≠ []
      ∧ nlt (nlit 0) (totalScore st) = true
      ∧ statsOf (uniqueValues [] (username <$> prev))
                (stats_username st, userGroup cur (stats_username st)) = Some st.
Proof.
  intros Hbuilt.
  apply buildLeaderboard_Built in Hbuilt as (_ & _ & obj & _ & Hgroup & _ & _ & Husers).
  pose proof (groupByUser_keys _ _ Hgroup) as [Hnd _].
  apply groupByUser_grouped in Hgroup as [Hgroups Hcover].
  rewrite Husers. split.
  - rewrite sortWith_perm.
    eapply sublist_NoDup; [|apply fmap_sublist, sublist_filter].
    eapply sublist_NoDup; [|apply statsOf_names].
    by rewrite objectEntries_perm.
  - intros st. rewrite elem_of_sortWith, list_elem_of_filter, list_elem_of_omap. split.
    + intros (Hpos & [k ts] & Hentry & Hstats).
      rewrite objectEntries_perm in Hentry.
      destruct (Hgroups _ _ Hentry) as [Hts Hne].
      destruct (statsOf_Some _ _ _ _ Hstats) as (_ & Hname & _).
      unfold userGroup. rewrite Hname, <- Hts. done.
    + intros (Hne & Hpos & Hstats). split; [done|].
      exists (stats_username st, userGroup cur (stats_username st)). split; [|done].
      rewrite objectEntries_perm.
      destruct (userGroup cur (stats_username st)) as [|t ts] eqn:Hg; [done|].
      assert (Ht : t ∈ userGroup cur (stats_username st))
        by (rewrite Hg; apply elem_of_cons; by left).
      unfold userGroup in Ht. apply list_elem_of_filter in Ht as [Hname Ht].
      destruct (Hcover _ Ht) as [ts' Hin]. rewrite Hname in Hin.
      destruct (Hgroups _ _ Hin) as [Hts' _].
      unfold userGroup in Hg. rewrite Hg in Hts'. by rewrite <- Hts'.
Qed.

(** C10.  Ties keep the earliest record: the most viral record of a snapshot
    is the first record of the window that reaches the maximal
    [likes + 2 * retweets], and the top record of each ranked user is the
    first such record of that user's group.  Every handle with a valid
    record in the window and a positive score is ranked, with such a top
    record. *)
Theorem ties_keep_earliest_record (env : ScoreEnv) (disk : Disk Q)
    (lb : LeaderboardData Q) :
  leaderboardOf env disk = Built lb →
  let window := getWeeklyTweets disk (now_current env) 0 in
  let previousWeekUsers :=
    uniqueValues [] (username <$> getWeeklyTweets disk (now_previous env) 1) in
  firstMaximal window (mostViralTweet lb)
  ∧ (∀ st, st ∈ users lb →
       firstMaximal
         (filter (fun t => username t = stats_username st)
                 (filter (fun t => isValidTweet t = true) window))
         (topTweet st))
  ∧ (∀ u, userGroup window u ≠ [] →
       (0 < calculateUserScore (userGroup window u) previousWeekUsers)%Q →
       ∃ st, st ∈ users lb ∧ stats_username st = u
             ∧ firstMaximal (userGroup window u) (topTweet st)).
Proof.
  intros Hbuilt window previousWeekUsers.
  unfold leaderboardOf in Hbuilt. fold window in Hbuilt.
  assert (Htop : ∀ st, st ∈ users lb →
            firstMaximal (userGroup window (stats_username st)) (topTweet st)).
  { intros st Hst.
    destruct (users_from_groups _ _ _ _ _ _ Hbuilt Hst) as (first & rest & Hgroup & Htop & _).
    unfold userGroup. rewrite Hgroup, Htop. apply reduce_moreViral_firstMaximal. }
  split; [|split].
  - apply buildLeaderboard_Built in Hbuilt as (first & rest & obj & Hwin & _ & Hmv & _).
    rewrite Hmv, Hwin. apply reduce_moreViral_firstMaximal.
  - exact Htop.
  - intros u Hne Hpos.
    destruct (users_entry _ _ _ _ _ Hbuilt) as [_ Hiff].
    destruct (statsOf previousWeekUsers (u, userGroup window u)) as [st|] eqn:Hstats.
    + destruct (statsOf_Some _ _ _ _ Hstats) as (_ & Hname & Hscore & _).
      assert (Hst : st ∈ users lb).
      { apply Hiff. rewrite Hname. split; [done|]. split; [|done].
        rewrite Hscore. by apply Qltb_lt. }
      exists st. split; [done|]. split; [done|]. rewrite <- Hname. by apply Htop.
    + simpl in Hstats. by destruct (userGroup window u).
Qed.

(** Three records tie at the top of the window, two of them in carol's
    group: the earliest in store order is selected for the window and for
    carol. *)
Lemma ties_keep_earliest_record_witness :
  ∃ lb,
    leaderboardOf sampleScoreEnv tiedDisk = Built lb
    ∧ viralScore <$> [olderCarol; tiedFirst; tiedSecond; tiedThird] = [1; 6; 6; 6]%Q
    ∧ mostViralTweet lb = tiedFirst
    ∧ (fun st => (stats_username st, id (topTweet st))) <$> users lb
      = [("carol", "8"); ("dave", "9")]
    ∧ (∃ st, st ∈ users lb ∧ stats_username st = "carol"
             ∧ firstMaximal [olderCarol; tiedFirst; tiedThird] (topTweet st)).
Proof.
  eexists. split; [vm_compute; reflexivity|].
  split; [vm_compute; reflexivity|]. split; [reflexivity|]. split; [reflexivity|].
  refine (proj2 (proj2 (ties_keep_earliest_record sampleScoreEnv tiedDisk _ _)) "carol" _ _).
  - vm_compute. reflexivity.
  - vm_compute. discriminate.
  - vm_compute. reflexivity.
Defined.

(** A snapshot ranks exactly the handles that have at least one valid record
    in the window and a positive score, each of them once, with the score
    [calculateUserScore] gives to the handle's records of the window. *)
Theorem ranking_lists_positive_valid_users (env : ScoreEnv) (disk : Disk Q)
    (lb : LeaderboardData Q) :
  leaderboardOf env disk = Built lb →
  let window := getWeeklyTweets disk (now_current env) 0 in
  let previousWeekUsers :=
    uniqueValues [] (username <$> getWeeklyTweets disk (now_previous env) 1) in
  NoDup (stats_username <$> users lb)
  ∧ (∀ st, st ∈ users lb →
       totalScore st
       = calculateUserScore (userGroup window (stats_username st)) previousWeekUsers)
  ∧ (∀ u, u ∈ (stats_username <$> users lb) ↔
       userGroup window u ≠ []
       ∧ (0 < calculateUserScore (userGroup window u) previousWeekUsers)%Q).
Proof.
  intros Hbuilt window previousWeekUsers. unfold leaderboardOf in Hbuilt.
  fold window in Hbuilt.
  destruct (users_entry _ _ _ _ _ Hbuilt) as [Hnd Hiff].
  split; [done|]. split.
  - intros st Hst. apply Hiff in Hst as (_ & _ & Hstats).
    by destruct (statsOf_Some _ _ _ _ Hstats) as (_ & _ & Hscore & _).
  - intros u. rewrite list_elem_of_fmap. split.
    + intros (st & -> & Hst). apply Hiff in Hst as (Hne & Hpos & Hstats).
      split; [done|].
      destruct (statsOf_Some _ _ _ _ Hstats) as (_ & _ & Hscore & _).
      fold previousWeekUsers in Hscore. rewrite <- Hscore. by apply Qltb_lt in Hpos.
    + intros [Hne Hpos].
      destruct (statsOf previousWeekUsers (u, userGroup window u)) as [st|] eqn:Hstats.
      * destruct (statsOf_Some _ _ _ _ Hstats) as (_ & Hname & Hscore & _).
        exists st. split; [done|]. apply Hiff. rewrite Hname.
        split; [done|]. split; [|done]. rewrite Hscore. by apply Qltb_lt.
      * simpl in Hstats. by destruct (userGroup window u).
Qed.

(** ann's score exceeds ben's by one unit in the last place only: she is
    listed first although ben's record is stored first. *)
Lemma ranked_users_descending_witness :
  ∃ lb a b, leaderboardOf sampleScoreEnv closeDisk = Built lb
        ∧ stats_username <$> users lb = ["ann"; "ben"]
        ∧ users lb !! 0%nat = Some a ∧ users lb !! 1%nat = Some b
        ∧ (totalScore b <=? totalScore a)%float = true.
Proof.
  eexists _, _, _. split; [vm_compute; reflexivity|]. split; [reflexivity|].
  split; [reflexivity|]. split; [reflexivity|].
  match goal with
  | |- (totalScore ?b <=? totalScore ?a)%float = true =>
      refine (proj1 (ranked_users_descending sampleScoreEnv closeDisk _ _)
                0%nat 1%nat a b _ _ _)
  end.
  - vm_compute. reflexivity.
  - lia.
  - reflexivity.
  - reflexivity.
Defined.

Lemma ranking_lists_positive_valid_users_witness :
  ∃ lb, leaderboardOf sampleScoreEnv rankedDisk = Built lb
        ∧ NoDup (stats_username <$> users lb).
Proof.
  eexists. split; [vm_compute; reflexivity|].
  refine (proj1 (ranking_lists_positive_valid_users sampleScoreEnv rankedDisk _ _)).
  vm_compute. reflexivity.
Defined.

Lemma sum_list_with_fmap {A B : Type} (f : B → nat) (g : A → B) (l : list A) :
  sum_list_with f (g <$> l) = sum_list_with (f ∘ g) l.
Proof. induction l as [|x l IH]; csimpl; [done|]. by f_equal. Qed.

Lemma sum_list_with_ext_in {A : Type} (f g : A → nat) (l : list A) :
  (∀ x, x ∈ l → f x = g x) → sum_list_with f l = sum_list_with g l.
Proof.
  induction l as [|x l IH]; intros Hfg; simpl; [done|].
  rewrite (Hfg x) by (apply elem_of_cons; by left).
  rewrite IH; [done|]. intros y Hy. apply Hfg. apply elem_of_cons. by right.
Qed.

(** Groups of distinct handles do not share records. *)
Lemma groups_within_list {num : Type} (ks : list string) (l : list (Tweet num)) :
  NoDup ks →
  (sum_list_with (fun k => length (filter (fun t => username t = k) l)) ks ≤ length l)%nat.
Proof.
  revert l. induction ks as [|k ks IH]; intros l Hnd; simpl; [lia|].
  apply NoDup_cons in Hnd as [Hk Hnd].
  pose proof (filter_app_complement (fun t : Tweet num => username t = k) l) as Hsplit.
  apply Permutation_length in Hsplit. rewrite length_app in Hsplit.
  specialize (IH (filter (fun t => ¬ username t = k) l) Hnd).
  rewrite (sum_list_with_ext_in
             (fun k' => length (filter (fun t => username t = k') l))
             (fun k' => length (filter (fun t => username t = k')
                                  (filter (fun t => ¬ username t = k) l)))); [lia|].
  intros k' Hk'. f_equal. rewrite list_filter_filter. apply list_filter_iff.
  intros t. split; [|by intros [? _]].
  intros Heq. split; [done|]. intros Hkk. apply Hk. by rewrite <- Hkk, Heq.
Qed.

Lemma buildLeaderboard_totalTweets {num : Type} `{JSNumber num}
    (cur prev : list (Tweet num)) wk now lb :
  buildLeaderboard cur prev wk now = Built lb → totalTweets lb = length cur.
Proof.
  unfold buildLeaderboard. case_bool_decide; [done|].
  destruct (groupByUser _); [|done]. by intros [= <-].
Qed.

(** The counts of a snapshot: [totalTweets] is the size of the whole window,
    invalid records included; [tweetCount] of a ranked user is the number of
    that user's valid records in the window, at least one; and the counts of
    the ranked users add up to at most [totalTweets]. *)
Theorem snapshot_counts {num : Type} `{JSNumber num} (env : ScoreEnv) (disk : Disk num)
    (lb : LeaderboardData num) :
  leaderboardOf env disk = Built lb →
  let window := getWeeklyTweets disk (now_current env) 0 in
  totalTweets lb = length window
  ∧ (∀ st, st ∈ users lb →
       tweetCount st = length (userGroup window (stats_username st))
       ∧ (1 ≤ tweetCount st)%nat)
  ∧ (sum_list_with tweetCount (users lb) ≤ totalTweets lb)%nat.
Proof.
  intros Hbuilt window. unfold leaderboardOf in Hbuilt. fold window in Hbuilt.
  destruct (users_entry _ _ _ _ _ Hbuilt) as [Hnd Hiff].
  assert (Hcount : ∀ st, st ∈ users lb →
            tweetCount st = length (userGroup window (stats_username st))
            ∧ (1 ≤ tweetCount st)%nat).
  { intros st Hst. apply Hiff in Hst as (Hne & _ & Hstats).
    destruct (statsOf_Some _ _ _ _ Hstats) as (_ & _ & _ & Hlen).
    split; [done|]. rewrite Hlen.
    destruct (userGroup window (stats_username st)); [done|simpl; lia]. }
  split; [by apply (buildLeaderboard_totalTweets _ _ _ _ _ Hbuilt)|].
  split; [done|].
  rewrite (buildLeaderboard_totalTweets _ _ _ _ _ Hbuilt).
  rewrite (sum_list_with_ext_in tweetCount
             ((fun k => length (userGroup window k)) ∘ stats_username))
    by (intros st Hst; by destruct (Hcount st Hst)).
  rewrite <- (sum_list_with_fmap (fun k => length (userGroup window k)) stats_username).
  etrans; [apply (groups_within_list _ (filter (fun t => isValidTweet t = true) window) Hnd)|].
  apply length_filter.
Qed.

Lemma snapshot_counts_witness :
  ∃ lb, leaderboardOf sampleScoreEnv rankedDisk = Built lb
        ∧ tweetCount <$> users lb = [2%nat; 1%nat]
        ∧ totalTweets lb = 4%nat
        ∧ (sum_list_with tweetCount (users lb) ≤ totalTweets lb)%nat.
Proof.
  eexists. split; [vm_compute; reflexivity|].
  split; [reflexivity|]. split; [reflexivity|].
  refine (proj2 (proj2 (snapshot_counts sampleScoreEnv rankedDisk _ _))).
  vm_compute. reflexivity.
Defined.

(** ** More on the fetcher *)

(** Every record the fetcher returns has a resolved author: its handle is
    neither ["unknown"] nor empty, so it passes [isValidTweet], and its
    permalink is built from that handle and the id of the tweet. *)
Theorem fetched_records_resolved {num : Type} `{JSNumber num} (up : Upstream num)
    (startTime endTime : Z) (maxResults : nat) (t : Tweet num) :
  t ∈ fetchTwitterMentions up startTime endTime maxResults →
  isValidTweet t = true
  ∧ url t = "https://twitter.com/" +:+ username t +:+ "/status/" +:+ id t.
Proof.
  unfold fetchTwitterMentions.
  destruct (fetchPages _ _ _ _ _ _ _ _ _) as [[allTweets allUsers]|];
    [|intros Hin; by apply elem_of_nil in Hin].
  intros Hin. apply list_elem_of_filter in Hin as [Hknown Hin].
  apply list_elem_of_fmap in Hin as (raw & -> & _).
  unfold isValidTweet, processTweet in *. simpl in *.
  destruct (List.find _ allUsers ≫= user_username) as [name|]; simpl in *; [|done].
  case_bool_decide as Hname; [done|]. split; [|done].
  apply andb_true_iff. split; by apply bool_decide_eq_true.
Qed.

Lemma fetched_records_resolved_witness :
  Forall (fun t => isValidTweet t = true) (fetchTwitterMentions distinctUpstream 0 1 100).
Proof.
  apply Forall_forall. intros t Ht.
  exact (proj1 (fetched_records_resolved distinctUpstream 0 1 100 t Ht)).
Defined.

(** The page cap is what ends the loop: with the budget of recursive calls
    the model starts from, or any larger one, no request after the tenth is
    made. *)
Lemma fetchPages_cap {num : Type} `{JSNumber num} (up up' : Upstream num) s e m
    (k pagesLeft pageCount : nat) token allTweets allUsers :
  (pageCount + k = maxPages - 1)%nat → (k ≤ pagesLeft)%nat →
  (∀ n req, (1 ≤ n ≤ maxPages)%nat → up n req = up' n req) →
  fetchPages up s e m pagesLeft pageCount token allTweets allUsers
  = fetchPages up' s e m k pageCount token allTweets allUsers.
Proof.
  unfold maxPages. intros Hk Hfuel Hagree.
  revert pagesLeft pageCount token allTweets allUsers Hk Hfuel.
  induction k as [|k IH]; intros pagesLeft pageCount token allTweets allUsers Hk Hfuel.
  - assert (pageCount = 9%nat) as -> by lia.
    destruct pagesLeft; cbn [fetchPages]; rewrite (Hagree 10%nat) by (unfold maxPages; lia);
      destruct (up' 10%nat _) as [r|]; try done;
      by rewrite andb_false_r.
  - destruct pagesLeft as [|pagesLeft]; [lia|].
    cbn [fetchPages]. rewrite (Hagree (S pageCount)) by (unfold maxPages; lia).
    destruct (up' (S pageCount) _) as [r|]; [|done].
    destruct (truthy (meta_next_token r) && (S pageCount <? maxPages)%nat); [|done].
    apply IH; lia.
Qed.

(** One call sends at most [maxPages] = 10 requests, however many pages the
    upstream announces: what it would answer to an eleventh or later request
    has no influence on the result, and the loop ends by its own condition,
    not because the recursion of the model runs out. *)
Theorem fetch_reads_at_most_ten_pages {num : Type} `{JSNumber num} (up up' : Upstream num)
    (startTime endTime : Z) (maxResults pagesLeft : nat) :
  (maxPages - 1 ≤ pagesLeft)%nat →
  (∀ n req, (1 ≤ n ≤ maxPages)%nat → up n req = up' n req) →
  fetchPages up startTime endTime maxResults pagesLeft 0 None [] []
  = fetchPages up' startTime endTime maxResults (maxPages - 1) 0 None [] []
  ∧ fetchTwitterMentions up startTime endTime maxResults
    = fetchTwitterMentions up' startTime endTime maxResults.
Proof.
  intros Hfuel Hagree. split.
  - by apply fetchPages_cap.
  - unfold fetchTwitterMentions.
    by rewrite (fetchPages_cap up up' _ _ _ (maxPages - 1) (maxPages - 1) 0).
Qed.

(** Every page announces a next one: ten pages are read. *)
Lemma fetch_reads_at_most_ten_pages_witness :
  length (fetchTwitterMentions endlessUpstream 0 1 100) = 10%nat
  ∧ fetchPages endlessUpstream 0 1 100 25 0 None [] []
    = fetchPages cutUpstream 0 1 100 (maxPages - 1) 0 None [] [].
Proof.
  split; [vm_compute; reflexivity|].
  refine (proj1 (fetch_reads_at_most_ten_pages endlessUpstream cutUpstream 0 1 100 25 _ _)).
  - unfold maxPages. lia.
  - intros n req Hn. unfold cutUpstream.
    destruct (n <=? maxPages)%nat eqn:E; [done|].
    apply Nat.leb_gt in E. lia.
Defined.

(** ** More on the store *)

(** Read with the same clock, the current-week and the prior-week windows
    share no record, and together they hold exactly the stored records of the
    last 14 days. *)
Theorem weekly_windows_partition {num : Type} `{JSNumber num} (disk : Disk num)
    (now : Z) (t : Tweet num) :
  (t ∈ getWeeklyTweets disk now 0 → t ∉ getWeeklyTweets disk now 1)
  ∧ (t ∈ getWeeklyTweets disk now 0 ∨ t ∈ getWeeklyTweets disk now 1
     ↔ t ∈ tweets (load disk)
       ∧ (now - 14 * dayMs ≤ created_at t)%Z ∧ (created_at t < now)%Z).
Proof.
  unfold getWeeklyTweets. rewrite !list_elem_of_filter. unfold dayMs.
  split; [intros [? _] [? _]; lia|].
  split.
  - intros [[? ?]|[? ?]]; (split; [done|lia]).
  - intros (Hin & Hlo & Hhi).
    destruct (decide (now - 7 * 86400000 ≤ created_at t)%Z).
    + left. split; [lia|done].
    + right. split; [lia|done].
Qed.

Lemma fetchLatestMentionsLive_tweets {num : Type} `{JSNumber num}
    (env : FetchEnv num) (disk : Disk num) :
  ∃ fetched,
    tweets (load (fetchLatestMentionsLive env disk))
    = if fetch_write_ok env
      then tweets (load disk) ++ newTweetsOf (load disk) fetched
      else tweets (load disk).
Proof.
  unfold fetchLatestMentionsLive.
  set (fetched := fetchTwitterMentions _ _ _ 50). exists fetched.
  assert (Hsaved :
    tweets (load (save (fetch_write_ok env)
                       (mergeTweets (load disk) fetched (stamp_now env)) disk))
    = if fetch_write_ok env
      then tweets (load disk) ++ newTweetsOf (load disk) fetched
      else tweets (load disk)).
  { unfold save. by destruct (fetch_write_ok env). }
  destruct (0 <? length _)%nat; [|done].
  by rewrite scoreAndStore_tweets.
Qed.

(** No operation deletes or reorders a stored record: an aggregation leaves
    the records as they are, and a fetch cycle only appends to them. *)
Theorem operations_keep_records {num : Type} `{JSNumber num}
    (scoreEnv : ScoreEnv) (env : FetchEnv num) (disk : Disk num) :
  tweets (load (scoreAndStore scoreEnv disk)) = tweets (load disk)
  ∧ tweets (load disk) `prefix_of` tweets (load (fetchAllMentionsHistorical env disk))
  ∧ tweets (load disk) `prefix_of` tweets (load (fetchLatestMentionsLive env disk)).
Proof.
  split; [apply scoreAndStore_tweets|]. split.
  - rewrite fetchAllMentionsHistorical_tweets.
    destruct (fetch_write_ok env); [by eexists|done].
  - destruct (fetchLatestMentionsLive_tweets env disk) as [fetched ->].
    destruct (fetch_write_ok env); [by eexists|done].
Qed.

(** A historical fetch that brings no id the store does not already hold
    (in particular a failed or empty fetch) triggers no aggregation: records
    and snapshots stay as they are and only [lastFetch] moves, to the time of
    the cycle. *)
Theorem fetch_without_news_only_stamps {num : Type} `{JSNumber num}
    (env : FetchEnv num) (disk : Disk num) :
  (∀ t, t ∈ fetchTwitterMentions (upstream env) (fetch_now env - 7 * dayMs)
              (fetch_now env - 30 * 1000) 100 →
        id t ∈ id <$> tweets (load disk)) →
  fetchAllMentionsHistorical env disk
  = save (fetch_write_ok env)
         {| tweets := tweets (load disk);
            lastFetch := stamp_now env;
            leaderboards := leaderboards (load disk) |} disk.
Proof.
  intros Hknown. unfold fetchAllMentionsHistorical.
  set (fetched := fetchTwitterMentions _ _ _ 100) in *.
  assert (Hnone : newTweetsOf (load disk) fetched = []).
  { unfold newTweetsOf. apply filter_none. intros t Ht Hfresh.
    apply Hfresh, elem_of_list_to_set. by apply Hknown. }
  unfold mergeTweets. rewrite Hnone, app_nil_r. done.
Qed.

Lemma fetch_without_news_only_stamps_witness :
  fetchAllMentionsHistorical firstFetchEnv (fetchAllMentionsHistorical firstFetchEnv None)
  = Some {| tweets := tweets (load (fetchAllMentionsHistorical firstFetchEnv None));
            lastFetch := dayMs;
            leaderboards :=
              leaderboards (load (fetchAllMentionsHistorical firstFetchEnv None)) |}.
Proof.
  apply (fetch_without_news_only_stamps firstFetchEnv
           (fetchAllMentionsHistorical firstFetchEnv None)).
  intros t Ht. vm_compute in Ht.
  apply list_elem_of_singleton in Ht as ->. vm_compute.
  apply list_elem_of_singleton. reflexivity.
Defined.

(** ** Writing a snapshot and reading it back *)

Lemma find_of_list_find {A : Type} (P : A → Prop) `{!∀ x, Decision (P x)}
    (l : list A) j y :
  list_find P l = Some (j, y) → List.find (fun x => bool_decide (P x)) l = Some y.
Proof.
  revert j. induction l as [|x l IH]; intros j; [done|].
  cbn [list_find List.find]. rewrite bool_decide_decide.
  destruct (decide (P x)).
  - by intros [= _ <-].
  - intros Hfind. destruct (list_find P l) as [[j' y']|] eqn:E; [|done].
    simpl in Hfind. injection Hfind as _ ->. by apply (IH j').
Qed.

(** With at most 8 snapshots in store, the snapshot just written is the first
    one of its week in the list. *)
Lemma storeLeaderboard_find {num : Type} `{JSNumber num}
    (lb : LeaderboardData num) (data : StorageData num) :
  (length (leaderboards data) ≤ 8)%nat →
  ∃ j, list_find (fun l => week l = week lb) (leaderboards (storeLeaderboard lb data))
       = Some (j, lb).
Proof.
  intros Hlen. unfold storeLeaderboard. cbn [leaderboards].
  destruct (list_find _ (leaderboards data)) as [[i old]|] eqn:Hfind.
  - rewrite lastN_short by (by rewrite length_insert).
    apply list_find_Some in Hfind as (Hi & Hweek & Hfirst).
    exists i. apply list_find_Some. split; [|split; [done|]].
    + apply list_lookup_insert_eq. by apply lookup_lt_Some in Hi.
    + intros j y Hj Hlt. rewrite list_lookup_insert_ne in Hj by lia.
      by apply (Hfirst j).
  - apply list_find_None in Hfind. rewrite Forall_forall in Hfind.
    unfold lastN. rewrite length_app. simpl.
    rewrite drop_app_le by lia.
    exists (length (drop (length (leaderboards data) + 1 - 8) (leaderboards data))).
    apply list_find_Some. split; [|split; [done|]].
    + by rewrite list_lookup_middle.
    + intros j y Hj Hlt. rewrite lookup_app_l in Hj by done.
      apply Hfind. apply list_elem_of_lookup_2 in Hj.
      by eapply elem_of_sublist; [|apply sublist_drop].
Qed.

Lemma storeLeaderboard_twice {num : Type} `{JSNumber num}
    (lb : LeaderboardData num) (data : StorageData num) :
  (length (leaderboards data) ≤ 8)%nat →
  storeLeaderboard lb (storeLeaderboard lb data) = storeLeaderboard lb data.
Proof.
  intros Hlen. destruct (storeLeaderboard_find lb data Hlen) as [j Hfind].
  unfold storeLeaderboard at 1. rewrite Hfind.
  apply list_find_Some in Hfind as (Hj & _).
  rewrite (list_insert_id _ _ _ Hj).
  rewrite lastN_short.
  - by destruct data.
  - unfold storeLeaderboard. cbn [leaderboards]. apply length_lastN.
Qed.

Lemma leaderboardOf_same_tweets {num : Type} `{JSNumber num} (env : ScoreEnv)
    (disk disk' : Disk num) :
  tweets (load disk') = tweets (load disk) →
  leaderboardOf env disk' = leaderboardOf env disk.
Proof.
  intros Hsame. unfold leaderboardOf, getWeeklyTweets. by rewrite Hsame.
Qed.

(** Aggregation is idempotent: with at most 8 snapshots in store, running
    [scoreAndStore] a second time in the same environment leaves the file the
    first run left. *)
Theorem scoreAndStore_idempotent {num : Type} `{JSNumber num} (env : ScoreEnv)
    (disk : Disk num) :
  (length (leaderboards (load disk)) ≤ 8)%nat →
  scoreAndStore env (scoreAndStore env disk) = scoreAndStore env disk.
Proof.
  intros Hlen.
  pose proof (leaderboardOf_same_tweets env disk (scoreAndStore env disk)
                (scoreAndStore_tweets env disk)) as Hsame.
  unfold scoreAndStore at 1. rewrite Hsame.
  unfold scoreAndStore.
  destruct (leaderboardOf env disk) as [| |lb] eqn:Hout; [done|done|].
  unfold save. destruct (write_ok env); [|done].
  change (load (Some ?d)) with d. by rewrite storeLeaderboard_twice.
Qed.

Lemma scoreAndStore_idempotent_witness :
  scoreAndStore sampleScoreEnv (scoreAndStore sampleScoreEnv rankedDisk)
  = scoreAndStore sampleScoreEnv rankedDisk.
Proof.
  apply (scoreAndStore_idempotent sampleScoreEnv rankedDisk). simpl. lia.
Defined.

(** Write, then read: after a run of [scoreAndStore] that built a snapshot
    and wrote it into a store of at most 8 snapshots, the lookup the commands
    make for the week key of that run returns the snapshot just built. *)
Theorem stored_snapshot_is_found {num : Type} `{JSNumber num} (env : ScoreEnv)
    (disk : Disk num) (lb : LeaderboardData num) :
  (length (leaderboards (load disk)) ≤ 8)%nat →
  leaderboardOf env disk = Built lb →
  write_ok env = true →
  findLeaderboard (week_key env) (load (scoreAndStore env disk)) = Some lb.
Proof.
  intros Hlen Hbuilt Hok. unfold scoreAndStore. rewrite Hbuilt. unfold save. rewrite Hok.
  change (load (Some ?d)) with d.
  destruct (storeLeaderboard_find lb (load disk) Hlen) as [j Hfind].
  apply find_of_list_find in Hfind.
  unfold leaderboardOf in Hbuilt.
  apply buildLeaderboard_Built in Hbuilt as (_ & _ & _ & _ & _ & _ & Hweek & _).
  unfold findLeaderboard. by rewrite <- Hweek.
Qed.

Lemma stored_snapshot_is_found_witness :
  ∃ lb, leaderboardOf sampleScoreEnv rankedDisk = Built lb
        ∧ findLeaderboard "1969-12-28" (load (scoreAndStore sampleScoreEnv rankedDisk))
          = Some lb.
Proof.
  eexists. split; [vm_compute; reflexivity|].
  apply (stored_snapshot_is_found sampleScoreEnv rankedDisk).
  - simpl. lia.
  - vm_compute. reflexivity.
  - reflexivity.
Defined.

(** ** The fallback ranking *)

Lemma ownProperty_fresh {V : Type} key (obj : list (string * V)) :
  key ∉ obj.*1 → ownProperty key obj = None.
Proof.
  intros Hfresh. destruct (ownProperty key obj) as [v|] eqn:E; [|done].
  destruct Hfresh. apply ownProperty_Some in E.
  apply list_elem_of_fmap. by exists (key, v).
Qed.

Lemma userScores_fold {num : Type} `{JSNumber num}
    (entries : list (string * list (Tweet num))) (acc : list (string * num)) :
  NoDup (acc.*1 ++ entries.*1) →
  (∀ k ts, (k, ts) ∈ entries → k ≠ "__proto__" ∧ ts ≠ []) →
  foldl (fun userScores entry =>
           match entry.2 with
           | [] => userScores
           | _ :: _ => assignPrimitive entry.1 (scoreLoop 0 entry.2 (nlit 0)) userScores
           end) acc entries
  = acc ++ ((fun entry => (entry.1, scoreLoop 0 entry.2 (nlit 0))) <$> entries).
Proof.
  revert acc. induction entries as [|[k ts] entries IH]; intros acc Hnd Hok.
  - simpl. by rewrite app_nil_r.
  - destruct (Hok k ts) as [Hproto Hne]; [apply elem_of_cons; by left|].
    cbn [foldl fmap list_fmap fst snd]. destruct ts as [|t ts]; [done|].
    unfold assignPrimitive. rewrite bool_decide_eq_false_2 by done.
    rewrite ownProperty_fresh.
    + rewrite IH.
      * by rewrite <- app_assoc.
      * rewrite fmap_app. simpl. rewrite <- app_assoc. exact Hnd.
      * intros k' ts' Hin. apply Hok. apply elem_of_cons. by right.
    + apply NoDup_app in Hnd as (_ & Hdisj & _). intros Hin.
      apply (Hdisj k Hin). apply elem_of_cons. by left.
Qed.

(** The scores of the fallback ranking, one per handle of [tweetsByUser]. *)
Lemma userScoresOf_grouped {num : Type} `{JSNumber num} (l : list (Tweet num)) obj :
  groupByUser l = Some obj →
  userScoresOf obj
  = (fun entry => (entry.1, scoreLoop 0 entry.2 (nlit 0))) <$> objectEntries obj.
Proof.
  intros Hgroup. unfold userScoresOf.
  destruct (groupByUser_keys _ _ Hgroup) as [Hnd Hsafe].
  apply groupByUser_grouped in Hgroup as [Hgroups _].
  rewrite (userScores_fold (objectEntries obj) []); [done| |].
  - simpl. by rewrite objectEntries_perm.
  - intros k ts Hin. rewrite objectEntries_perm in Hin. split.
    + intros ->. apply (Hsafe "__proto__").
      * apply list_elem_of_fmap. by exists ("__proto__", ts).
      * apply list_elem_of_In. simpl. tauto.
    + by destruct (Hgroups _ _ Hin).
Qed.

Lemma simple_entries {num : Type} `{JSNumber num} (l : list (Tweet num)) obj
    (entry : string * num) :
  groupByUser (filter (fun t => isValidTweet t = true) l) = Some obj →
  entry ∈ objectEntries (userScoresOf obj) ↔
    userGroup l entry.1 ≠ []
    ∧ entry.2 = scoreLoop 0 (userGroup l entry.1) (nlit 0).
Proof.
  intros Hgroup. rewrite objectEntries_perm, (userScoresOf_grouped _ _ Hgroup).
  rewrite list_elem_of_fmap.
  apply groupByUser_grouped in Hgroup as [Hgroups Hcover]. split.
  - intros ([k ts] & -> & Hin). rewrite objectEntries_perm in Hin.
    destruct (Hgroups _ _ Hin) as [Hts Hne]. simpl. unfold userGroup.
    by rewrite <- Hts.
  - intros [Hne Hscore]. destruct entry as [u sc]. simpl in *.
    exists (u, userGroup l u). split; [by rewrite Hscore|].
    rewrite objectEntries_perm.
    destruct (userGroup l u) as [|t ts] eqn:Hg; [done|].
    assert (Ht : t ∈ userGroup l u) by (rewrite Hg; apply elem_of_cons; by left).
    unfold userGroup in Ht. apply list_elem_of_filter in Ht as [Hname Ht].
    destruct (Hcover _ Ht) as [ts' Hin]. rewrite Hname in Hin.
    destruct (Hgroups _ _ Hin) as [Hts' _].
    unfold userGroup in Hg. rewrite Hg in Hts'. by rewrite <- Hts'.
Qed.

Lemma simple_entries_NoDup {num : Type} `{JSNumber num} (l : list (Tweet num)) obj :
  groupByUser l = Some obj → NoDup (objectEntries (userScoresOf obj)).*1.
Proof.
  intros Hgroup. rewrite objectEntries_perm, (userScoresOf_grouped _ _ Hgroup).
  rewrite <- list_fmap_compose.
  destruct (groupByUser_keys _ _ Hgroup) as [Hnd _].
  rewrite (list_fmap_ext _ fst (objectEntries obj)) by done.
  by rewrite objectEntries_perm.
Qed.

(** On positive scores the comparator of the fallback ranking is the
    test [b[1] < a[1]]. *)
Lemma higherEntryFirst_ltb (a b : string * float) :
  (0 <? a.2)%float = true → (0 <? b.2)%float = true →
  higherEntryFirst a b = (b.2 <? a.2)%float.
Proof.
  intros Ha Hb. unfold higherEntryFirst. cbn [nlt nsub float_number].
  rewrite float_zero_literal. by apply float_sub_ltb.
Qed.

(** Each line of the fallback ranking stands for a handle with at least one
    valid fetched record; its score is the rank-weighted sum over that
    handle's records in the order they were fetched, and it is positive.  No
    handle has two lines. *)
Theorem simple_ranking_lines (tweets : list (Tweet Q)) (ranking : list (string * Q)) :
  simpleRanking tweets = Some ranking →
  NoDup ranking.*1
  ∧ ∀ u score, (u, score) ∈ ranking →
      userGroup tweets u ≠ []
      ∧ score = scoreLoop 0 (userGroup tweets u) 0%Q
      ∧ (0 < score)%Q.
Proof.
  unfold simpleRanking.
  destruct (groupByUser _) as [obj|] eqn:Hgroup; [|done]. intros [= <-]. split.
  - eapply sublist_NoDup; [|apply fmap_sublist, sublist_take].
    rewrite sortWith_perm.
    eapply sublist_NoDup; [|apply fmap_sublist, sublist_filter].
    by apply (simple_entries_NoDup _ _ Hgroup).
  - intros u score Hin.
    pose proof (elem_of_sublist _ _ _ Hin (sublist_take _ 10)) as Hin'. clear Hin.
    apply elem_of_sortWith in Hin'.
    apply list_elem_of_filter in Hin' as [Hpos Hin'].
    apply (simple_entries _ _ _ Hgroup) in Hin' as [Hne Hscore]. simpl in *.
    split; [done|]. split; [done|]. by apply Qltb_lt in Hpos.
Qed.

Lemma simple_ranking_lines_witness :
  ∃ ranking, simpleRanking [silentTweet; tiedFirst; tiedSecond; olderCarol] = Some ranking
             ∧ ranking.*1 = ["carol"; "dave"]
             ∧ NoDup ranking.*1.
Proof.
  eexists. split; [vm_compute; reflexivity|]. split; [reflexivity|].
  refine (proj1 (simple_ranking_lines [silentTweet; tiedFirst; tiedSecond; olderCarol] _ _)).
  vm_compute. reflexivity.
Defined.

(** The fallback ranking shows at most ten lines, best score first, and they
    are the ten best: a handle with valid records and a positive score that
    is not shown is only left out when ten lines are shown, none of which
    scores less.  Over binary64. *)
Theorem simple_ranking_top_ten (tweets : list (Tweet float)) (ranking : list (string * float)) :
  simpleRanking tweets = Some ranking →
  (length ranking ≤ 10)%nat
  ∧ (∀ i j a b, (i < j)%nat → ranking !! i = Some a → ranking !! j = Some b →
                (b.2 <=? a.2)%float = true)
  ∧ (∀ u, userGroup tweets u ≠ [] →
          (0 <? scoreLoop 0 (userGroup tweets u) (nlit 0))%float = true →
          u ∉ ranking.*1 →
          length ranking = 10%nat
          ∧ ∀ v score, (v, score) ∈ ranking →
                       (scoreLoop 0 (userGroup tweets u) (nlit 0) <=? score)%float = true).
Proof.
  unfold simpleRanking.
  destruct (groupByUser _) as [obj|] eqn:Hgroup; [|done]. intros [= <-].
  cbn [nlt float_number]. rewrite float_zero_literal.
  set (shown := filter _ _).
  set (sorted := sortWith higherEntryFirst shown).
  assert (Hshown : ∀ entry, entry ∈ sorted → (0 <? entry.2)%float = true).
  { intros entry Hin. apply elem_of_sortWith in Hin.
    by apply list_elem_of_filter in Hin as [Hpos _]. }
  assert (Hranked : rankedBy higherEntryFirst sorted).
  { apply (sortWith_rankedBy higherEntryFirst (fun entry => (0 <? entry.2)%float = true)).
    - intros x y Hx Hy. rewrite !higherEntryFirst_ltb by done. by apply float_ltb_asym.
    - intros x y z Hx Hy Hz. rewrite !higherEntryFirst_ltb by done.
      intros Hxz. destruct (float_ltb_negtrans _ y.2 _ Hz Hy Hx Hxz); auto.
    - apply Forall_forall. intros entry Hin. by apply list_elem_of_filter in Hin as [? _]. }
  assert (Hle : ∀ i j a b, (i < j)%nat → sorted !! i = Some a → sorted !! j = Some b →
                  (b.2 <=? a.2)%float = true).
  { intros i j a b Hij Hi Hj.
    assert (Ha : (0 <? a.2)%float = true) by (apply Hshown; by eapply list_elem_of_lookup_2).
    assert (Hb : (0 <? b.2)%float = true) by (apply Hshown; by eapply list_elem_of_lookup_2).
    apply (float_leb_positive _ _ Hb Ha). rewrite <- (higherEntryFirst_ltb b a Hb Ha).
    by apply (Hranked i j). }
  split; [rewrite length_take; lia|]. split.
  - intros i j a b Hij Hi Hj.
    apply lookup_take_Some in Hi as [Hi _]. apply lookup_take_Some in Hj as [Hj _].
    by apply (Hle i j).
  - intros u Hne Hpos Hout.
    set (su := scoreLoop 0 (userGroup tweets u) 0%float) in *.
    assert (Hin : (u, su) ∈ sorted).
    { apply elem_of_sortWith, list_elem_of_filter. split; [done|].
      apply (simple_entries _ _ (u, su) Hgroup). split; [done|].
      unfold su. apply (f_equal (scoreLoop 0 _)). symmetry. exact float_zero_literal. }
    apply list_elem_of_lookup_1 in Hin as [idx Hidx].
    assert (Hidx10 : (10 ≤ idx)%nat).
    { destruct (decide (idx < 10)%nat) as [Hlt|]; [|lia]. destruct Hout.
      apply list_elem_of_fmap. exists (u, su). split; [done|].
      apply (list_elem_of_lookup_2 _ idx). by apply lookup_take_Some. }
    pose proof (lookup_lt_Some _ _ _ Hidx) as Hlen.
    split; [rewrite length_take; lia|].
    intros v score Hv. apply list_elem_of_lookup_1 in Hv as [i Hi].
    apply lookup_take_Some in Hi as [Hi Hi10].
    apply (Hle i idx (v, score) (u, su)); [lia|done|done].
Qed.

(** Eleven users with scores 3, 6, ..., 33: the one with the lowest score is
    cut off. *)
Lemma simple_ranking_top_ten_witness :
  ∃ ranking, simpleRanking elevenMentions = Some ranking
             ∧ ranking.*1 = ["u11"; "u10"; "u09"; "u08"; "u07"; "u06"; "u05"; "u04"; "u03"; "u02"]
             ∧ length ranking = 10%nat
             ∧ ∀ v score, (v, score) ∈ ranking →
                 (scoreLoop 0 (userGroup elevenMentions "u01") (nlit 0) <=? score)%float = true.
Proof.
  eexists. split; [vm_compute; reflexivity|]. split; [reflexivity|].
  refine (proj2 (proj2 (simple_ranking_top_ten elevenMentions _ _)) "u01" _ _ _).
  - vm_compute. reflexivity.
  - vm_compute. discriminate.
  - vm_compute. reflexivity.
  - intros Hin. apply list_elem_of_In in Hin. simpl in Hin.
    repeat destruct Hin as [Hin|Hin]; try discriminate. done.
Defined.

(** ** Bot commands *)

Lemma list_find_of_find {A : Type} (p : A → bool) (l : list A) (y : A) :
  List.find p l = Some y → ∃ j, list_find (fun x => p x = true) l = Some (j, y).
Proof.
  induction l as [|x l IH]; [done|].
  cbn [List.find list_find]. destruct (p x) eqn:Hp.
  - intros [= <-]. exists 0%nat. by rewrite decide_True.
  - intros Hfind. destruct (IH Hfind) as [j Hj]. exists (S j).
    rewrite decide_False by congruence. by rewrite Hj.
Qed.

Lemma findIndex_nonneg {A : Type} (p : A → bool) (l : list A) :
  (0 ≤ findIndex p l)%Z →
  ∃ y, l !! Z.to_nat (findIndex p l) = Some y ∧ p y = true.
Proof.
  unfold findIndex. destruct (list_find _ l) as [[j y]|] eqn:Hfind; [|lia].
  intros _. apply list_find_Some in Hfind as (Hj & Hp & _).
  exists y. by rewrite Nat2Z.id.
Qed.

(** The report of [/myxp] is consistent: the rank is the 1-based position, in
    the snapshot of the current week, of the very entry whose figures are
    shown, and that entry is the first whose handle equals the requested one
    up to case. *)
Theorem myxp_rank_points_at_report {num : Type} `{JSNumber num}
    (toLowerCase : string → string) (requestedUser : option string) (weekKey : string)
    (disk : Disk num) (rank : Z) (st : UserStats num) :
  myxp toLowerCase requestedUser weekKey disk = UserReport rank st →
  ∃ lb requested,
    requestedUser = Some requested
    ∧ findLeaderboard weekKey (load disk) = Some lb
    ∧ (1 ≤ rank ≤ Z.of_nat (length (users lb)))%Z
    ∧ users lb !! Z.to_nat (rank - 1) = Some st
    ∧ toLowerCase (stats_username st) = toLowerCase requested
    ∧ ∀ j y, users lb !! j = Some y → (Z.of_nat j < rank - 1)%Z →
             toLowerCase (stats_username y) ≠ toLowerCase requested.
Proof.
  unfold myxp. destruct requestedUser as [requested|]; [|done].
  case_bool_decide; [done|].
  destruct (findLeaderboard weekKey (load disk)) as [lb|]; [|done].
  destruct (List.find _ (users lb)) as [found|] eqn:Hfind; [|done].
  intros [= <- <-]. exists lb, requested.
  apply list_find_of_find in Hfind as [j Hj].
  unfold findIndex. rewrite Hj.
  apply list_find_Some in Hj as (Hlook & Hsame & Hfirst).
  apply bool_decide_eq_true in Hsame.
  pose proof (lookup_lt_Some _ _ _ Hlook) as Hlen.
  split; [done|]. split; [done|]. split; [lia|].
  replace (Z.to_nat (Z.of_nat j + 1 - 1)) with j by lia.
  split; [done|]. split; [done|].
  intros j' y Hy Hlt Heq. apply (Hfirst j' y Hy); [lia|].
  by apply bool_decide_eq_true.
Qed.

Lemma myxp_rank_points_at_report_witness :
  ∃ st, myxp asciiLower (Some "DAVE") "1969-12-28" twoWeekDisk = UserReport 2 st
        ∧ asciiLower (stats_username st) = asciiLower "DAVE".
Proof.
  eexists. split; [vm_compute; reflexivity|].
  destruct (myxp_rank_points_at_report asciiLower (Some "DAVE") "1969-12-28" twoWeekDisk 2 _
              ltac:(vm_compute; reflexivity))
    as (lb & requested & Hreq & _ & _ & _ & Hsame & _).
  injection Hreq as <-. exact Hsame.
Defined.

Lemma findRiser_Some {num : Type} (candidates current previous : list (UserStats num))
    (u : string) (d : Z) :
  findRiser candidates current previous = Some (u, d) →
  ∃ k user,
    candidates !! k = Some user
    ∧ stats_username user = u
    ∧ d = (findIndex (fun x => bool_decide (stats_username x = u)) previous
           - findIndex (fun x => bool_decide (stats_username x = u)) current)%Z
    ∧ (0 < d)%Z
    ∧ (0 ≤ findIndex (fun x => bool_decide (stats_username x = u)) previous)%Z
    ∧ ∀ j y, (j < k)%nat → candidates !! j = Some y →
        ¬ ((findIndex (fun x => bool_decide (stats_username x = stats_username y)) current
            < findIndex (fun x => bool_decide (stats_username x = stats_username y)) previous)%Z
           ∧ (0 ≤ findIndex (fun x => bool_decide (stats_username x = stats_username y))
                            previous)%Z).
Proof.
  induction candidates as [|user rest IH]; [done|].
  cbn [findRiser].
  destruct ((_ <? _)%Z && (0 <=? _)%Z) eqn:Hcond.
  - intros [= <- <-]. apply andb_true_iff in Hcond as [Hlt Hnn].
    apply Z.ltb_lt in Hlt. apply Z.leb_le in Hnn.
    exists 0%nat, user. split; [done|]. split; [done|]. split; [done|].
    split; [lia|]. split; [done|]. intros j y Hj. lia.
  - intros Hrest. destruct (IH Hrest) as (k & user' & Hk & Hname & Hd & Hpos & Hnn & Hfirst).
    exists (S k), user'. split; [done|]. split; [done|]. split; [done|].
    split; [done|]. split; [done|].
    intros j y Hj Hy. destruct j as [|j].
    + simpl in Hy. injection Hy as <-. intros [Hlt Hnn'].
      apply andb_false_iff in Hcond as [Hc|Hc].
      * apply Z.ltb_ge in Hc. lia.
      * apply Z.leb_gt in Hc. lia.
    + apply (Hfirst j y); [lia|done].
Qed.

(** The "fastest riser" of [/analytics] is the best-placed of the first five
    users who stands strictly higher now than in the compared snapshot: the
    user is among the first five, is listed in the compared snapshot, the
    number of places shown is positive, and nobody placed before the user
    among the five has risen.  The compared snapshot is the first stored one
    whose week key differs from the current one. *)
Theorem analytics_riser {num : Type} `{JSNumber num} (weekKey : string) (disk : Disk num)
    (a : Analytics num) (u : string) (d : Z) :
  analytics weekKey disk = Some a →
  fastestRiser a = Some (u, d) →
  ∃ lb prevWeek k user,
    findLeaderboard weekKey (load disk) = Some lb
    ∧ List.find (fun l => bool_decide (week l ≠ weekKey)) (leaderboards (load disk))
      = Some prevWeek
    ∧ take 5 (users lb) !! k = Some user
    ∧ stats_username user = u
    ∧ u ∈ stats_username <$> users prevWeek
    ∧ (0 < d)%Z
    ∧ d = (findIndex (fun x => bool_decide (stats_username x = u)) (users prevWeek)
           - findIndex (fun x => bool_decide (stats_username x = u)) (users lb))%Z
    ∧ ∀ j y, (j < k)%nat → users lb !! j = Some y →
        ¬ ((findIndex (fun x => bool_decide (stats_username x = stats_username y)) (users lb)
            < findIndex (fun x => bool_decide (stats_username x = stats_username y))
                        (users prevWeek))%Z
           ∧ (0 ≤ findIndex (fun x => bool_decide (stats_username x = stats_username y))
                            (users prevWeek))%Z).
Proof.
  unfold analytics.
  destruct (findLeaderboard weekKey (load disk)) as [lb|]; [|done].
  intros [= <-]. cbn [fastestRiser].
  destruct (List.find _ (leaderboards (load disk))) as [prevWeek|]; [|done].
  intros Hriser.
  apply findRiser_Some in Hriser as (k & user & Hk & Hname & Hd & Hpos & Hnn & Hfirst).
  exists lb, prevWeek, k, user.
  split; [done|]. split; [done|]. split; [done|]. split; [done|]. split.
  - apply findIndex_nonneg in Hnn as (y & Hy & Hsame).
    apply bool_decide_eq_true in Hsame. apply list_elem_of_fmap.
    exists y. split; [done|]. by eapply list_elem_of_lookup_2.
  - split; [done|]. split; [done|].
    intros j y Hj Hy. apply (Hfirst j y Hj).
    apply lookup_take_Some. split; [done|].
    apply lookup_take_Some in Hk as [_ Hk5]. lia.
Qed.

Lemma analytics_riser_witness :
  ∃ a, analytics "1969-12-28" twoWeekDisk = Some a
       ∧ fastestRiser a = Some ("carol", 2%Z)
       ∧ "carol" ∈ stats_username <$> users earlierSnapshot.
Proof.
  eexists. split; [vm_compute; reflexivity|]. split; [reflexivity|].
  destruct (analytics_riser "1969-12-28" twoWeekDisk _ "carol" 2
              ltac:(vm_compute; reflexivity) ltac:(reflexivity))
    as (lb & prevWeek & k & user & _ & Hprev & _ & _ & Hin & _).
  vm_compute in Hprev. injection Hprev as <-. exact Hin.
Defined.

(** What gets posted after an aggregation: once [scoreAndStore] has built
    and written a snapshot (into a store of at most 8), the weekly post for
    that week key shows the first ten users of that snapshot; when the
    snapshot ranks nobody, the post falls back to the fresh fetch of
    [generateSimpleLeaderboard] although a snapshot is stored. *)
Theorem posting_uses_stored_snapshot {num : Type} `{JSNumber num} (env : ScoreEnv)
    (disk : Disk num) (lb : LeaderboardData num) (up : Upstream num) (now : Z) :
  (length (leaderboards (load disk)) ≤ 8)%nat →
  leaderboardOf env disk = Built lb →
  write_ok env = true →
  (users lb ≠ [] →
     ∃ viral, sendLeaderboardToTelegram up now (week_key env) (scoreAndStore env disk)
              = Board (take 10 (users lb)) viral)
  ∧ (users lb = [] →
       sendLeaderboardToTelegram up now (week_key env) (scoreAndStore env disk)
       = Fallback (generateSimpleLeaderboard up now)).
Proof.
  intros Hlen Hbuilt Hok.
  assert (Hfound : findLeaderboard (week_key env) (load (scoreAndStore env disk)) = Some lb).
  { unfold scoreAndStore. rewrite Hbuilt. unfold save. rewrite Hok.
    change (load (Some ?d)) with d.
    destruct (storeLeaderboard_find lb (load disk) Hlen) as [j Hfind].
    apply find_of_list_find in Hfind.
    unfold leaderboardOf in Hbuilt.
    apply buildLeaderboard_Built in Hbuilt as (_ & _ & _ & _ & _ & _ & Hweek & _).
    unfold findLeaderboard. by rewrite <- Hweek. }
  unfold sendLeaderboardToTelegram. rewrite Hfound. split.
  - intros Hne. rewrite bool_decide_eq_false_2; [by eexists|].
    by destruct (users lb).
  - intros ->. by rewrite bool_decide_eq_true_2.
Qed.

Lemma posting_uses_stored_snapshot_witness :
  ∃ lb viral,
    leaderboardOf sampleScoreEnv rankedDisk = Built lb
    ∧ sendLeaderboardToTelegram distinctUpstream dayMs "1969-12-28"
        (scoreAndStore sampleScoreEnv rankedDisk)
      = Board (take 10 (users lb)) viral.
Proof.
  eexists.
  destruct (posting_uses_stored_snapshot sampleScoreEnv rankedDisk _ distinctUpstream dayMs
              ltac:(simpl; lia) ltac:(vm_compute; reflexivity) ltac:(reflexivity))
    as [Hboard _].
  destruct (Hboard ltac:(discriminate)) as [viral Hviral].
  exists viral. split; [vm_compute; reflexivity|exact Hviral].
Defined.

(** The literal [0.001] of the source is the double nearest to 1/1000. *)
Example float_literal_0_001 : nlit (num:=float) 0.001 = 0x1.0624dd2f1a9fcp-10%float.
Proof. vm_compute. reflexivity. Qed.
